(** * songplays ETL (etl.py): a shallow embedding and its properties

    The pipeline of [etl.py] loads line-delimited JSON files into five
    relational tables.  Its three functions, [process_song_file],
    [process_log_file] and [process_data], are embedded as programs of a
    small state-and-error monad over a [world] made of the database seen by
    the cursor, the committed database and the chronological list of calls
    sent to the connection.

    The calls into pandas, psycopg2, os, glob and datetime are embedded by
    their documented behaviour; every such definition says which call it
    stands for.  [sql_queries.py] is not part of the sources: its six
    statements are the constructors of [statement]; the effect of the five
    writing statements is a parameter of the development and the lookup
    [song_select] is modelled from the specification.

    The properties proved are about the calls an extractor sends (which,
    how many, in which order, with which parameters), about the loop of the
    Loader with its commits and its errors, and about two places where the
    code departs from what its comments announce: the start time of a
    songplay row and the list of files found. *)

From Stdlib Require Import ZArith SpecFloat Ascii String Lia.
From stdpp Require Import base option list strings gmap.

Local Open Scope Z_scope.

(** ** Calendar arithmetic

    pandas' [Series.dt] accessors and Python's [datetime] both decompose an
    instant in the proleptic Gregorian calendar.  The definitions follow the
    reference implementation of Python's [datetime] module. *)

Module Calendar.

Definition _is_leap (year : Z) : bool :=
  (year mod 4 =? 0) && (negb (year mod 100 =? 0) || (year mod 400 =? 0)).

Definition _days_before_year (year : Z) : Z :=
  let y := year - 1 in y * 365 + y / 4 - y / 100 + y / 400.

Definition _DAYS_IN_MONTH (month : Z) : Z :=
  match month with
  | 1 => 31 | 2 => 28 | 3 => 31 | 4 => 30 | 5 => 31 | 6 => 30
  | 7 => 31 | 8 => 31 | 9 => 30 | 10 => 31 | 11 => 30 | 12 => 31
  | _ => -1
  end.

Definition _DAYS_BEFORE_MONTH (month : Z) : Z :=
  match month with
  | 1 => 0 | 2 => 31 | 3 => 59 | 4 => 90 | 5 => 120 | 6 => 151
  | 7 => 181 | 8 => 212 | 9 => 243 | 10 => 273 | 11 => 304 | 12 => 334
  | _ => -1
  end.

Definition _days_in_month (year month : Z) : Z :=
  if (month =? 2) && _is_leap year then 29 else _DAYS_IN_MONTH month.

Definition _days_before_month (year month : Z) : Z :=
  _DAYS_BEFORE_MONTH month + (if (2 <? month) && _is_leap year then 1 else 0).

Definition _ymd2ord (year month day : Z) : Z :=
  _days_before_year year + _days_before_month year month + day.

Definition _DI400Y : Z := 146097.
Definition _DI100Y : Z := 36524.
Definition _DI4Y : Z := 1461.

(** [_ord2ymd n]: the date whose proleptic Gregorian ordinal is [n]
    (ordinal 1 is 0001-01-01). *)
Definition _ord2ymd (n : Z) : Z * Z * Z :=
  let n := n - 1 in
  let n400 := n / _DI400Y in
  let n := n mod _DI400Y in
  let year := n400 * 400 + 1 in
  let n100 := n / _DI100Y in
  let n := n mod _DI100Y in
  let n4 := n / _DI4Y in
  let n := n mod _DI4Y in
  let n1 := n / 365 in
  let n := n mod 365 in
  let year := year + n100 * 100 + n4 * 4 + n1 in
  if (n1 =? 4) || (n100 =? 4) then (year - 1, 12, 31)
  else
    let leapyear := (n1 =? 3) && (negb (n4 =? 24) || (n100 =? 3)) in
    let month := Z.shiftr (n + 50) 5 in
    let preceding :=
      _DAYS_BEFORE_MONTH month + (if (2 <? month) && leapyear then 1 else 0) in
    if n <? preceding then
      let month := month - 1 in
      let preceding :=
        preceding
        - (_DAYS_IN_MONTH month + (if (month =? 2) && leapyear then 1 else 0)) in
      (year, month, n - preceding + 1)
    else (year, month, n - preceding + 1).

Definition _isoweek1monday (year : Z) : Z :=
  let firstday := _ymd2ord year 1 1 in
  let firstweekday := (firstday + 6) mod 7 in
  let week1monday := firstday - firstweekday in
  if 3 <? firstweekday then week1monday + 7 else week1monday.

(** [isocalendar]: ISO year, ISO week number and ISO weekday (Monday is 1). *)
Definition isocalendar (year month day : Z) : Z * Z * Z :=
  let week1monday := _isoweek1monday year in
  let today := _ymd2ord year month day in
  let week := (today - week1monday) / 7 in
  let wday := (today - week1monday) mod 7 in
  if week <? 0 then
    let year := year - 1 in
    let week1monday := _isoweek1monday year in
    (year, (today - week1monday) / 7 + 1, (today - week1monday) mod 7 + 1)
  else if (52 <=? week) && (_isoweek1monday (year + 1) <=? today) then
    (year + 1, 1, wday + 1)
  else (year, week + 1, wday + 1).

(** The ordinal of 1970-01-01, the epoch. *)
Definition EPOCH_ORDINAL : Z := 719163.

End Calendar.

(** A naive (zone-less) date and time, as a Python [datetime] or a pandas
    [Timestamp] holds it. *)
Record datetime : Type := mk_datetime {
  dt_year : Z; dt_month : Z; dt_day : Z;
  dt_hour : Z; dt_minute : Z; dt_second : Z; dt_microsecond : Z
}.

Global Instance datetime_eq_dec : EqDecision datetime.
Proof. solve_decision. Defined.

(** [time.gmtime] followed by the [datetime] constructor: the fields of the
    instant [secs] seconds and [us] microseconds after the epoch, UTC. *)
Definition gmtime (secs us : Z) : datetime :=
  let days := secs / 86400 in
  let sod := secs mod 86400 in
  let '(y, m, d) := Calendar._ord2ymd (days + Calendar.EPOCH_ORDINAL) in
  mk_datetime y m d (sod / 3600) (sod mod 3600 / 60) (sod mod 60) us.

(** [Timestamp.min] and [Timestamp.max] of pandas in nanoseconds: a
    [datetime64[ns]] is a signed 64-bit count of nanoseconds, the least
    value being reserved for NaT. *)
Definition Timestamp_min_ns : Z := - 2 ^ 63 + 1.
Definition Timestamp_max_ns : Z := 2 ^ 63 - 1.

(** One element of [pd.to_datetime(df["ts"], unit="ms")]: the naive UTC
    timestamp, or [None] for pandas' OutOfBoundsDatetime. *)
Definition to_datetime_ms (ts : Z) : option datetime :=
  let ns := ts * 1000000 in
  if (Timestamp_min_ns <=? ns) && (ns <=? Timestamp_max_ns)
  then Some (gmtime (ts / 1000) (ts mod 1000 * 1000))
  else None.

(** The accessors of [t.dt] used for the time table. *)
Definition dt_isocalendar_week (d : datetime) : Z :=
  let '(_, w, _) := Calendar.isocalendar (dt_year d) (dt_month d) (dt_day d) in w.

Definition dt_isocalendar_day (d : datetime) : Z :=
  let '(_, _, wd) := Calendar.isocalendar (dt_year d) (dt_month d) (dt_day d) in wd.

(** [datetime.fromtimestamp(ts / 1000)] without a [tz] argument: the fields
    are those of [time.localtime], the wall clock of the host's time zone.
    [utcoffset secs] is the offset of that zone, in seconds east of UTC, at
    the instant [secs].  The quotient [ts / 1000] is a binary64 float in the
    source; it is taken exactly here, which agrees with the source's
    rounding to microseconds for every [ts] that [to_datetime_ms] accepts. *)
Definition datetime_fromtimestamp_ms (utcoffset : Z -> Z) (ts : Z) : datetime :=
  let secs := ts / 1000 in
  gmtime (secs + utcoffset secs) (ts mod 1000 * 1000).

(** ** Values, JSON records and data frames *)

(** A cell of a data frame, a query parameter or a column of a table.
    [VNone] stands for a missing value (JSON [null], pandas' NaN, Python's
    [None], SQL's NULL). *)
Inductive value : Type :=
  | VNone
  | VBool (b : bool)
  | VInt (n : Z)
  | VFloat (f : spec_float)
  | VStr (s : string)
  | VDatetime (d : datetime).

Global Instance spec_float_eq_dec : EqDecision spec_float.
Proof. solve_decision. Defined.

Global Instance value_eq_dec : EqDecision value.
Proof. solve_decision. Defined.

(** One line of a line-delimited JSON document: a JSON object. *)
Abbreviation record := (gmap string value).

(** What [pd.read_json(filepath, lines=True)] returns: the columns are the
    keys met in any record, a record without a key has a missing value in
    that column. *)
Record DataFrame : Type := mk_df {
  df_columns : gset string;
  df_rows : list record
}.

Definition DataFrame_of_records (rs : list record) : DataFrame :=
  mk_df (⋃ (dom <$> rs)) rs.

Definition cell (r : record) (c : string) : value := default VNone (r !! c).

(** ** Errors and the world *)

Inductive error : Type :=
  | KeyError (key : string)
  | AttributeError (attr : string)
  | IndexError
  | ValueError
  | OutOfBoundsDatetime
  | FileNotFoundError
  | IsADirectoryError
  | ProgrammingError
  | PersistenceError.

Global Instance error_eq_dec : EqDecision error.
Proof. solve_decision. Defined.

(** The statements imported from [sql_queries]. *)
Inductive statement : Type :=
  | song_table_insert
  | artist_table_insert
  | user_table_insert
  | time_table_insert
  | songplay_table_insert
  | song_select.

Global Instance statement_eq_dec : EqDecision statement.
Proof. solve_decision. Defined.

(** What reaches the connection, in the order it is sent. *)
Inductive call : Type :=
  | Execute (q : statement) (params : list value)
  | FetchOne
  | Commit
  | Close.

Global Instance call_eq_dec : EqDecision call.
Proof. solve_decision. Defined.

Record Song : Type := mk_Song {
  s_song_id : value; s_title : value; s_artist_id : value;
  s_year : value; s_duration : value
}.

Record Artist : Type := mk_Artist {
  a_artist_id : value; a_name : value; a_location : value;
  a_latitude : value; a_longitude : value
}.

Record db : Type := mk_db {
  songs : list Song;
  artists : list Artist;
  users : list (list value);
  time : list (list value);
  songplays : list (list value)
}.

(** SQL's [=] in a WHERE clause: a comparison with NULL never holds. *)
Definition sql_eq (x y : value) : bool :=
  match x, y with
  | VNone, _ | _, VNone => false
  | _, _ => bool_decide (x = y)
  end.

(** Modelled from the spec: the text of [song_select] in [sql_queries.py],
    which is not part of the sources.  The lookup joins songs and artists on
    the artist identifier and keeps the pairs whose title, artist name and
    duration equal the three parameters; a result row is the pair of the
    song identifier and the artist identifier. *)
Definition song_select_matches (song artist length : value) (s : Song) (a : Artist) : bool :=
  sql_eq (s_artist_id s) (a_artist_id a)
  && sql_eq (s_title s) song
  && sql_eq (a_name a) artist
  && sql_eq (s_duration s) length.

Definition song_select_rows (params : list value) (d : db) : list (list value) :=
  match params with
  | [song; artist; length] =>
      s ← songs d;
      a ← artists d;
      if song_select_matches song artist length s a
      then [[s_song_id s; a_artist_id a]] else []
  | _ => []
  end.

(** The Persistence Gateway: the effect of a writing statement on the
    database ([None] when the statement is rejected) and whether a commit
    goes through. *)
Record Gateway : Type := mk_Gateway {
  gw_write : statement → list value → db → option db;
  gw_commit : db → bool
}.

(** The world the pipeline runs in: the committed database, the database
    as the open transaction sees it, the result set the cursor holds and
    the calls sent so far. *)
Record world : Type := mk_world {
  committed : db;
  session : db;
  resultset : option (list (list value));
  calls : list call
}.

Inductive result (A : Type) : Type :=
  | Ok (a : A)
  | Raise (e : error).
Arguments Ok {A} a.
Arguments Raise {A} e.

(** A program of the pipeline: it changes the world and returns a value or
    raises; nothing in [etl.py] catches an exception. *)
Definition M (A : Type) : Type := world → world * result A.

Definition ret {A} (a : A) : M A := λ w, (w, Ok a).
Definition raise {A} (e : error) : M A := λ w, (w, Raise e).
Definition bind {A B} (m : M A) (k : A → M B) : M B := λ w,
  match m w with
  | (w', Ok a) => k a w'
  | (w', Raise e) => (w', Raise e)
  end.

Declare Scope prog_scope.
Delimit Scope prog_scope with prog.
Notation "x <- m ;; k" := (bind m (λ x, k))
  (at level 100, m at next level, right associativity) : prog_scope.
Notation "m ;; k" := (bind m (λ _, k))
  (at level 100, right associativity) : prog_scope.

(** A [for] loop over a list, left to right; it stops at the first
    iteration that raises. *)
Fixpoint for_each {A} (l : list A) (body : A → M unit) : M unit :=
  match l with
  | [] => ret tt
  | x :: l' => bind (body x) (λ _, for_each l' body)
  end.

Definition lift_option {A} (e : error) (o : option A) : M A :=
  match o with Some a => ret a | None => raise e end.

(** ** The file system and the File Discoverer *)

(** The content of a regular file, as far as [pd.read_json] is concerned:
    its lines parse to JSON objects, or they do not. *)
Inductive file_content : Type :=
  | JsonLines (records : list record)
  | Malformed.

(** A file system tree; the entries of a directory come in the order in
    which [os.scandir] lists them. *)
#[warnings="-register-all"]
Inductive node : Type :=
  | File (content : file_content)
  | Dir (entries : list (string * node)).

(** A path is the list of its components. *)
Abbreviation path := (list string).

Definition is_dir (n : node) : bool :=
  match n with Dir _ => true | File _ => false end.

Fixpoint lookup_entry (name : string) (entries : list (string * node)) : option node :=
  match entries with
  | [] => None
  | (n, x) :: rest => if bool_decide (n = name) then Some x else lookup_entry name rest
  end.

Fixpoint resolve (n : node) (p : path) : option node :=
  match p with
  | [] => Some n
  | c :: p' =>
      match n with
      | Dir entries =>
          match lookup_entry c entries with
          | Some x => resolve x p'
          | None => None
          end
      | File _ => None
      end
  end.

(** [os.listdir]/[os.scandir] as [os.walk] and [glob] use them: a path that
    is missing or not a directory lists nothing, the error being ignored by
    both callers. *)
Definition listdir (root : node) (p : path) : list (string * node) :=
  match resolve root p with
  | Some (Dir entries) => entries
  | _ => []
  end.

(** [fnmatch]: shell patterns with [*], [?] and bracket expressions. *)
Module Fnmatch.

Inductive token : Type :=
  | Star
  | AnyChar
  | Lit (c : ascii)
  | Class (negated : bool) (ranges : list (ascii * ascii)).

(** The items of a bracket expression: [a-b] is a range, a hyphen that is
    first or last stands for itself. *)
Fixpoint class_items (s : list ascii) : list (ascii * ascii) :=
  match s with
  | [] => []
  | a :: rest =>
      match rest with
      | "-"%char :: b :: rest' => (a, b) :: class_items rest'
      | _ => (a, a) :: class_items rest
      end
  end.

(** Splits at the first ["]"]: the text before it and the text after it. *)
Fixpoint split_rbracket (s : list ascii) : option (list ascii * list ascii) :=
  match s with
  | [] => None
  | c :: rest =>
      if bool_decide (c = "]"%char) then Some ([], rest)
      else match split_rbracket rest with
           | Some (body, after) => Some (c :: body, after)
           | None => None
           end
  end.

(** The bracket expression that starts after a ["["]: an optional ["!"]
    negates, a ["]"] right after it stands for itself. *)
Definition parse_class (s : list ascii) : option (token * list ascii) :=
  let '(neg, s1) :=
    match s with
    | "!"%char :: s' => (true, s')
    | _ => (false, s)
    end in
  let '(lead, s2) :=
    match s1 with
    | "]"%char :: s' => (["]"%char], s')
    | _ => ([], s1)
    end in
  match split_rbracket s2 with
  | Some (body, after) => Some (Class neg (class_items (lead ++ body)), after)
  | None => None
  end.

Fixpoint tokens (fuel : nat) (pat : list ascii) : list token :=
  match fuel, pat with
  | O, _ | _, [] => []
  | S fuel', c :: rest =>
      if bool_decide (c = "*"%char) then Star :: tokens fuel' rest
      else if bool_decide (c = "?"%char) then AnyChar :: tokens fuel' rest
      else if bool_decide (c = "["%char) then
        match parse_class rest with
        | Some (t, after) => t :: tokens fuel' after
        | None => Lit c :: tokens fuel' rest
        end
      else Lit c :: tokens fuel' rest
  end.

Definition in_range (c : ascii) (r : ascii * ascii) : bool :=
  (nat_of_ascii (fst r) <=? nat_of_ascii c)%nat
  && (nat_of_ascii c <=? nat_of_ascii (snd r))%nat.

Fixpoint matches (ts : list token) (s : list ascii) : bool :=
  match ts with
  | [] => match s with [] => true | _ => false end
  | Star :: ts' =>
      (fix star (s : list ascii) : bool :=
         matches ts' s || match s with [] => false | _ :: s' => star s' end) s
  | AnyChar :: ts' =>
      match s with [] => false | _ :: s' => matches ts' s' end
  | Lit c :: ts' =>
      match s with
      | [] => false
      | x :: s' => bool_decide (x = c) && matches ts' s'
      end
  | Class neg rs :: ts' =>
      match s with
      | [] => false
      | x :: s' => xorb neg (existsb (in_range x) rs) && matches ts' s'
      end
  end.

Definition fnmatch (name pat : string) : bool :=
  let p := list_ascii_of_string pat in
  matches (tokens (length p) p) (list_ascii_of_string name).

End Fnmatch.

Module Glob.

(** [glob.has_magic]: the pattern holds one of [*], [?] and the opening
    bracket. *)
Definition has_magic (s : string) : bool :=
  existsb (λ c, bool_decide (c = "*"%char) || bool_decide (c = "?"%char)
                || bool_decide (c = "["%char))
          (list_ascii_of_string s).

Definition _ishidden (s : string) : bool :=
  match s with
  | String "." _ => true
  | _ => false
  end.

(** [glob._glob1]: the names of directory [dir] that match [pattern]; names
    that start with a dot are left out unless the pattern starts with one. *)
Definition _glob1 (root : node) (dir : path) (pattern : string) (dironly : bool)
  : list string :=
  let entries := listdir root dir in
  let entries := if dironly then filter (λ e, is_dir e.2 = true) entries else entries in
  let names := entries.*1 in
  let names := if _ishidden pattern then names
               else filter (λ x, _ishidden x = false) names in
  filter (λ x, Fnmatch.fnmatch x pattern = true) names.

(** [glob._glob0]: a component without magic names itself when it exists. *)
Definition _glob0 (root : node) (dir : path) (basename : string) : list string :=
  match resolve root (dir ++ [basename]) with
  | Some _ => [basename]
  | None => []
  end.

(** The directories a relative directory pattern stands for, component by
    component: [dir] is the part already expanded, [base] the directory the
    pattern is relative to. *)
Fixpoint glob_dirs (root : node) (base dir : path) (components : list string)
  : list path :=
  match components with
  | [] => [dir]
  | c :: cs =>
      name ← (if has_magic c then _glob1 root (base ++ dir) c true
              else _glob0 root (base ++ dir) c);
      glob_dirs root base (dir ++ [name]) cs
  end.

End Glob.

(** The host the pipeline runs on: its file system (from the root
    directory), the working directory of the process and the time zone. *)
Record Host : Type := mk_Host {
  fs : node;
  cwd : path;
  utcoffset : Z → Z
}.

(** [os.walk(top)], top-down and without following links: the directories
    it yields, each as [top] extended by the names on the way down.  Only
    the first component of each yielded triple is used by the source. *)
Fixpoint walk_tree (top : path) (n : node) : list path :=
  match n with
  | File _ => []
  | Dir entries =>
      top :: (fix walk_entries (es : list (string * node)) : list path :=
                match es with
                | [] => []
                | (name, child) :: es' =>
                    walk_tree (top ++ [name]) child ++ walk_entries es'
                end) entries
  end.

Section Discoverer.
Context (host : Host).

(** [os.path.abspath] for a path relative to the working directory. *)
Definition abspath (p : path) : path := cwd host ++ p.

Definition os_walk (top : path) : list path :=
  match resolve (fs host) (abspath top) with
  | Some n => walk_tree top n
  | None => []
  end.

(** [glob.glob(os.path.join(dirname, basename))] for a relative
    [dirname]: the directory part is expanded when it holds magic, then
    each directory is searched for [basename]. *)
Definition glob_glob (dirname : path) (basename : string) : list path :=
  d ← Glob.glob_dirs (fs host) (cwd host) [] dirname;
  name ← (if Glob.has_magic basename
          then Glob._glob1 (fs host) (cwd host ++ d) basename false
          else Glob._glob0 (fs host) (cwd host ++ d) basename);
  [d ++ [name]].

(** Lines 106-110 of [process_data]: the File Discoverer. *)
Definition all_files (folder_path : path) : list path :=
  root ← os_walk folder_path;
  f ← glob_glob root "*.json";
  [abspath f].

End Discoverer.

(** ** The cursor and the connection *)

Definition log_call (c : call) (w : world) : world :=
  mk_world (committed w) (session w) (resultset w) (calls w ++ [c]).

Section Pipeline.
Context (gw : Gateway) (host : Host).

Local Open Scope prog_scope.

(** [cur.execute(q, params)]: a lookup leaves its rows in the cursor, a
    writing statement changes the database of the open transaction or is
    rejected by the Gateway. *)
Definition execute (q : statement) (params : list value) : M unit := λ w,
  let w := log_call (Execute q params) w in
  match q with
  | song_select =>
      (mk_world (committed w) (session w)
                (Some (song_select_rows params (session w))) (calls w),
       Ok tt)
  | _ =>
      match gw_write gw q params (session w) with
      | Some d => (mk_world (committed w) d None (calls w), Ok tt)
      | None => (w, Raise PersistenceError)
      end
  end.

(** [cur.fetchone()]: the next row of the result set, [None] when it is
    exhausted. *)
Definition fetchone : M (option (list value)) := λ w,
  let w := log_call FetchOne w in
  match resultset w with
  | None => (w, Raise ProgrammingError)
  | Some [] => (w, Ok None)
  | Some (r :: rs) =>
      (mk_world (committed w) (session w) (Some rs) (calls w), Ok (Some r))
  end.

(** [conn.commit()]: the writes of the open transaction become durable. *)
Definition commit : M unit := λ w,
  let w := log_call Commit w in
  if gw_commit gw (session w)
  then (mk_world (session w) (session w) (resultset w) (calls w), Ok tt)
  else (w, Raise PersistenceError).

(** [conn.close()]: what the open transaction has not committed is
    rolled back. *)
Definition close : M unit := λ w,
  let w := log_call Close w in
  (mk_world (committed w) (committed w) None (calls w), Ok tt).

(** ** pandas *)

(** [pd.read_json(filepath, lines=True)].  A cell of the frame is the JSON
    value of the document; the inference of column types that pandas adds
    on top is outside the model. *)
Definition read_json (filepath : path) : M DataFrame :=
  match resolve (fs host) filepath with
  | None => raise FileNotFoundError
  | Some (Dir _) => raise IsADirectoryError
  | Some (File Malformed) => raise ValueError
  | Some (File (JsonLines rs)) => ret (DataFrame_of_records rs)
  end.

(** [df[c]]: the column, or KeyError. *)
Definition getitem (df : DataFrame) (c : string) : M (list value) :=
  if bool_decide (c ∈ df_columns df)
  then ret ((λ r, cell r c) <$> df_rows df)
  else raise (KeyError c).

(** [df[[c1, ..., cn]]]: the rows restricted to the columns, in the
    order asked for, or KeyError for a column that is missing. *)
Definition getitem_list (df : DataFrame) (cs : list string) : M (list (list value)) :=
  match filter (λ c, c ∉ df_columns df) cs with
  | [] => ret ((λ r, (cell r) <$> cs) <$> df_rows df)
  | c :: _ => raise (KeyError c)
  end.

(** [row.c] for a row yielded by [iterrows()]. *)
Definition getattr (df : DataFrame) (row : record) (c : string) : M value :=
  if bool_decide (c ∈ df_columns df)
  then ret (cell row c)
  else raise (AttributeError c).

(** [df[mask]] for the mask [df[c] == v]. *)
Definition filter_eq (df : DataFrame) (c : string) (v : value) : DataFrame :=
  mk_df (df_columns df) (filter (λ r, cell r c = v) (df_rows df)).

(** [pd.to_datetime(column, unit="ms")] on a column of integers.  A cell
    of another kind is outside this model and raises. *)
Fixpoint to_datetime (column : list value) : M (list datetime) :=
  match column with
  | [] => ret []
  | VInt ts :: rest =>
      d <- lift_option OutOfBoundsDatetime (to_datetime_ms ts) ;;
      ds <- to_datetime rest ;;
      ret (d :: ds)
  | _ :: _ => raise ValueError
  end.

(** ** The Song Record Extractor *)

Definition head_or_IndexError {A} (l : list A) : M A :=
  lift_option IndexError (head l).

Definition process_song_file (filepath : path) : M unit :=
  (* open song file *)
  df <- read_json filepath ;;
  (* insert song record *)
  rows <- getitem_list df ["song_id"; "title"; "artist_id"; "year"; "duration"] ;;
  song_data <- head_or_IndexError rows ;;
  execute song_table_insert song_data ;;
  (* insert artist record *)
  rows <- getitem_list df ["artist_id"; "artist_name"; "artist_location";
                           "artist_latitude"; "artist_longitude"] ;;
  artist_data <- head_or_IndexError rows ;;
  execute artist_table_insert artist_data.

(** ** The Event Record Extractor *)

(** One row of [time_df]. *)
Definition time_row (t : datetime) : list value :=
  [VDatetime t; VInt (dt_hour t); VInt (dt_day t);
   VInt (dt_isocalendar_week t); VInt (dt_month t); VInt (dt_year t);
   VInt (dt_isocalendar_day t)].

(** [datetime.fromtimestamp(row.ts / 1000)]. *)
Definition fromtimestamp_ms (ts : value) : M datetime :=
  match ts with
  | VInt n => ret (datetime_fromtimestamp_ms (utcoffset host) n)
  | _ => raise ValueError
  end.

(** The unpacking of [results]: a row of two columns, or nothing. *)
Definition unpack_results (results : option (list value)) : M (value * value) :=
  match results with
  | None | Some [] => ret (VNone, VNone)
  | Some [songid; artistid] => ret (songid, artistid)
  | Some _ => raise ValueError
  end.

(** The body of the songplay loop, lines 72-92. *)
Definition songplay_step (df : DataFrame) (row : record) : M unit :=
  (* get songid and artistid from song and artist tables *)
  song <- getattr df row "song" ;;
  artist <- getattr df row "artist" ;;
  length <- getattr df row "length" ;;
  execute song_select [song; artist; length] ;;
  results <- fetchone ;;
  ids <- unpack_results results ;;
  (* insert songplay record *)
  ts <- getattr df row "ts" ;;
  start_time <- fromtimestamp_ms ts ;;
  userId <- getattr df row "userId" ;;
  level <- getattr df row "level" ;;
  sessionId <- getattr df row "sessionId" ;;
  location <- getattr df row "location" ;;
  userAgent <- getattr df row "userAgent" ;;
  execute songplay_table_insert
    [VDatetime start_time; userId; level; ids.1; ids.2;
     sessionId; location; userAgent].

Definition process_log_file (filepath : path) : M unit :=
  (* open log file *)
  df <- read_json filepath ;;
  (* filter by NextSong action *)
  _ <- getitem df "page" ;;
  let df := filter_eq df "page" (VStr "NextSong") in
  (* convert timestamp column to datetime *)
  ts <- getitem df "ts" ;;
  t <- to_datetime ts ;;
  (* insert time data records *)
  let time_df := time_row <$> t in
  for_each time_df (λ row, execute time_table_insert row) ;;
  (* load user table *)
  user_df <- getitem_list df ["userId"; "firstName"; "lastName"; "gender"; "level"] ;;
  (* insert user records *)
  for_each user_df (λ row, execute user_table_insert row) ;;
  (* insert songplay records *)
  for_each (df_rows df) (songplay_step df).

(** ** The Loader *)

(** Lines 117-120 of [process_data]: the loop over the files found.  The
    two [print] calls report progress and touch neither the cursor nor
    the connection; they are left out. *)
Definition process_files (all_files : list path) (func : path → M unit) : M unit :=
  for_each all_files (λ datafile, func datafile ;; commit).

Definition process_data (folder_path : path) (func : path → M unit) : M unit :=
  (* get all files matching extension from directory *)
  let all_files := all_files host folder_path in
  (* iterate over files and process *)
  process_files all_files func.

(** The two extractors that [main] hands to [process_data]. *)
Inductive extractor : Type := SongExtractor | LogExtractor.

Definition func_of (e : extractor) : path → M unit :=
  match e with
  | SongExtractor => process_song_file
  | LogExtractor => process_log_file
  end.

Definition main : M unit :=
  process_data ["data"; "song_data"] process_song_file ;;
  process_data ["data"; "log_data"] process_log_file ;;
  close.

End Pipeline.

(** [connect(...)] and [conn.cursor()]: a fresh session on a database. *)
Definition connect (d : db) : world := mk_world d d None [].

(** ** An in-memory Gateway and a small data set, to run the pipeline on *)

Module Sample.

Definition row_key (r : list value) : value := default VNone (head r).

(** Insert a row, or replace the row that has its key. *)
Definition upsert (r : list value) (t : list (list value)) : list (list value) :=
  if bool_decide (Exists (λ r', row_key r' = row_key r) t)
  then (λ r', if bool_decide (row_key r' = row_key r) then r else r') <$> t
  else t ++ [r].

(** Insert a row unless a row has its key. *)
Definition insert_ignore (r : list value) (t : list (list value)) : list (list value) :=
  if bool_decide (Exists (λ r', row_key r' = row_key r) t) then t else t ++ [r].

(** Modelled from the spec: the five writing statements of
    [sql_queries.py] and the constraints of the tables, which are not part
    of the sources.  Songs are inserted under the primary key [song_id] (a
    second row with the same key is rejected), artists and users are
    upserted on their key, a time row whose key exists is ignored and
    songplays are appended. *)
Definition memory_write (q : statement) (params : list value) (d : db) : option db :=
  match q, params with
  | song_table_insert, [sid; t; aid; y; du] =>
      if bool_decide (Exists (λ s, s_song_id s = sid) (songs d)) then None
      else Some (mk_db (songs d ++ [mk_Song sid t aid y du]) (artists d)
                       (users d) (time d) (songplays d))
  | artist_table_insert, [aid; n; l; la; lo] =>
      let a := mk_Artist aid n l la lo in
      Some (mk_db (songs d)
                  (if bool_decide (Exists (λ a', a_artist_id a' = aid) (artists d))
                   then (λ a', if bool_decide (a_artist_id a' = aid) then a else a')
                          <$> artists d
                   else artists d ++ [a])
                  (users d) (time d) (songplays d))
  | user_table_insert, [_; _; _; _; _] =>
      Some (mk_db (songs d) (artists d) (upsert params (users d)) (time d) (songplays d))
  | time_table_insert, [_; _; _; _; _; _; _] =>
      Some (mk_db (songs d) (artists d) (users d) (insert_ignore params (time d))
                  (songplays d))
  | songplay_table_insert, [_; _; _; _; _; _; _; _] =>
      Some (mk_db (songs d) (artists d) (users d) (time d) (songplays d ++ [params]))
  | _, _ => None
  end.

Definition memory_gateway : Gateway := mk_Gateway memory_write (λ _, true).

Definition empty_db : db := mk_db [] [] [] [] [].

(** 180.5 as a binary64 float. *)
Definition f180_5 : spec_float := S754_finite false 6350779162034176 (-45).
Definition f40_7 : spec_float := S754_finite false 5728015776061850 (-47).
Definition f74_0 : spec_float := S754_finite true 5207287069147136 (-46).

Definition song_S1 : record :=
  list_to_map
    [("song_id", VStr "S1"); ("title", VStr "Song A"); ("artist_id", VStr "AR1");
     ("artist_name", VStr "Artist X"); ("artist_location", VStr "NYC");
     ("artist_latitude", VFloat f40_7); ("artist_longitude", VFloat f74_0);
     ("year", VInt 2000); ("duration", VFloat f180_5)].

Definition event (page : string) (ts : Z) (userId : Z) (song artist : string) : record :=
  list_to_map
    [("page", VStr page); ("ts", VInt ts); ("userId", VInt userId);
     ("firstName", VStr "Ada"); ("lastName", VStr "Lovelace");
     ("gender", VStr "F"); ("level", VStr "free");
     ("song", VStr song); ("artist", VStr artist); ("length", VFloat f180_5);
     ("sessionId", VInt 7); ("location", VStr "London");
     ("userAgent", VStr "Mozilla")].

Definition play_A : record := event "NextSong" 1000000000000 8 "Song A" "Artist X".
Definition play_B : record := event "NextSong" 1000000003500 9 "Song B" "Artist Y".
Definition home : record := event "Home" 1000000001000 8 "" "".

Definition data_tree : node :=
  Dir [("data",
        Dir [("song_data", Dir [("A", Dir [("TRAAA.json", File (JsonLines [song_S1]))])]);
             ("log_data", Dir [("2018", Dir [("events.json",
                                              File (JsonLines [play_A; home; play_B]))])])])].

Definition home_student : path := ["home"; "student"].

Definition root_of (tree : node) : node := Dir [("home", Dir [("student", tree)])].

Definition utc_host (tree : node) : Host := mk_Host (root_of tree) home_student (λ _, 0).

(** A host whose local time is one hour ahead of UTC. *)
Definition cet_host (tree : node) : Host := mk_Host (root_of tree) home_student (λ _, 3600).

Definition song_S2 : record :=
  list_to_map
    [("song_id", VStr "S2"); ("title", VStr "Song A"); ("artist_id", VStr "AR1");
     ("artist_name", VStr "Artist X"); ("artist_location", VStr "NYC");
     ("artist_latitude", VFloat f40_7); ("artist_longitude", VFloat f74_0);
     ("year", VInt 2001); ("duration", VFloat f180_5)].

Definition artist_AR1 : Artist :=
  mk_Artist (VStr "AR1") (VStr "Artist X") (VStr "NYC") (VFloat f40_7) (VFloat f74_0).

(** The database after the song file of [data_tree] was loaded. *)
Definition db_S1 : db :=
  mk_db [mk_Song (VStr "S1") (VStr "Song A") (VStr "AR1") (VInt 2000) (VFloat f180_5)]
        [artist_AR1] [] [] [].

(** Two songs of the same title, artist and duration. *)
Definition db_S1_S2 : db :=
  mk_db [mk_Song (VStr "S1") (VStr "Song A") (VStr "AR1") (VInt 2000) (VFloat f180_5);
         mk_Song (VStr "S2") (VStr "Song A") (VStr "AR1") (VInt 2001) (VFloat f180_5)]
        [artist_AR1] [] [] [].

Definition song_path : path :=
  ["home"; "student"; "data"; "song_data"; "A"; "TRAAA.json"].

Definition events_path : path :=
  ["home"; "student"; "data"; "log_data"; "2018"; "events.json"].

Definition events_df : DataFrame := DataFrame_of_records [play_A; home; play_B].

(** A log file with the single play event [play_A]. *)
Definition one_play_tree : node :=
  Dir [("data", Dir [("log_data", Dir [("events.json", File (JsonLines [play_A]))])])].

Definition one_play_path : path :=
  ["home"; "student"; "data"; "log_data"; "events.json"].

(** A song file with two records. *)
Definition two_records_tree : node :=
  Dir [("data", Dir [("song_data",
                      Dir [("TRAAA.json", File (JsonLines [song_S1; song_S2]))])])].

Definition two_records_path : path :=
  ["home"; "student"; "data"; "song_data"; "TRAAA.json"].

Definition a_path : path := ["home"; "student"; "data"; "song_data"; "a.json"].
Definition b_path : path := ["home"; "student"; "data"; "song_data"; "b.json"].
Definition c_path : path := ["home"; "student"; "data"; "song_data"; "c.json"].

(** Two song files. *)
Definition two_files_tree : node :=
  Dir [("data", Dir [("song_data",
                      Dir [("a.json", File (JsonLines [song_S1]));
                           ("c.json", File (JsonLines [song_S2]))])])].

(** Three song files, the second of which is not valid JSON. *)
Definition broken_tree : node :=
  Dir [("data", Dir [("song_data",
                      Dir [("a.json", File (JsonLines [song_S1]));
                           ("b.json", File Malformed);
                           ("c.json", File (JsonLines [song_S2]))])])].

(** A data set kept in a directory whose name ends in [.json]. *)
Definition json_dir_tree : node :=
  Dir [("data", Dir [("song_data",
                      Dir [("A.json", Dir [("TRAAA.json", File (JsonLines [song_S1]))])])])].

(** A song file whose name starts with a dot. *)
Definition hidden_tree : node :=
  Dir [("data", Dir [("song_data",
                      Dir [(".TRAAA.json", File (JsonLines [song_S1]))])])].

(** A data set kept in a directory whose name holds brackets. *)
Definition bracket_tree : node :=
  Dir [("data", Dir [("song_data",
                      Dir [("A[1]", Dir [("TRAAA.json", File (JsonLines [song_S1]))])])])].

(** An event file without a line, and one without a play event. *)
Definition empty_file_tree : node :=
  Dir [("data", Dir [("log_data", Dir [("events.json", File (JsonLines []))])])].

Definition no_play_tree : node :=
  Dir [("data", Dir [("log_data", Dir [("events.json", File (JsonLines [home]))])])].

(** A song record without the location of its artist. *)
Definition song_S1_no_location : record := delete "artist_location" song_S1.

Definition no_location_tree : node :=
  Dir [("data", Dir [("song_data",
                      Dir [("TRAAA.json", File (JsonLines [song_S1_no_location]))])])].

(** Two play events without the user agent. *)
Definition play_A_no_agent : record := delete "userAgent" play_A.
Definition play_B_no_agent : record := delete "userAgent" play_B.

Definition no_agent_tree : node :=
  Dir [("data", Dir [("log_data",
                      Dir [("events.json",
                            File (JsonLines [play_A_no_agent; play_B_no_agent]))])])].

(** A database without constraints: a write that [memory_write] rejects
    changes nothing. *)
Definition lenient_gateway : Gateway :=
  mk_Gateway (λ q params d, Some (default d (memory_write q params d))) (λ _, true).

(** A database that refuses every commit. *)
Definition refusing_gateway : Gateway := mk_Gateway memory_write (λ _, false).

(** A play event dated beyond the year 2262, and an event file with it. *)
Definition play_far : record := event "NextSong" 10000000000000000 8 "Song A" "Artist X".

Definition far_tree : node :=
  Dir [("data", Dir [("log_data",
                      Dir [("events.json", File (JsonLines [play_A; play_far]))])])].

End Sample.

(** ** The vocabulary of the properties *)

(** The calls that a run of [m] from [w] adds to those sent before. *)
Definition emitted {A} (m : M A) (w : world) : list call :=
  drop (length (calls w)) (calls (m w).1).

(** [emits P m]: whatever its outcome, [m] only appends calls that satisfy
    [P] to the calls sent so far, and it leaves the committed database as
    it is. *)
Definition emits {A} (P : call → Prop) (m : M A) : Prop :=
  ∀ w, committed (m w).1 = committed w
       ∧ ∃ tr, calls (m w).1 = calls w ++ tr ∧ Forall P tr.

(** [emits_then P Q m]: the calls appended by [m] are calls that satisfy
    [P] followed by calls that satisfy [Q]. *)
Definition emits_then {A} (P Q : call → Prop) (m : M A) : Prop :=
  ∀ w, committed (m w).1 = committed w
       ∧ ∃ t1 t2, calls (m w).1 = calls w ++ t1 ++ t2 ∧ Forall P t1 ∧ Forall Q t2.

(** A program that does not touch the world. *)
Definition pure {A} (m : M A) : Prop := ∀ w, (m w).1 = w.

(** A write to one of the two dimension tables fed by an event file. *)
Definition is_dimension_write (c : call) : Prop :=
  ∃ params, c = Execute time_table_insert params ∨ c = Execute user_table_insert params.

(** A call of the songplay loop: the lookup, its fetch, the insert. *)
Definition is_songplay_call (c : call) : Prop :=
  c = FetchOne
  ∨ ∃ params, c = Execute song_select params ∨ c = Execute songplay_table_insert params.

(** A call made through the cursor, as against the connection. *)
Definition is_cursor_call (c : call) : Prop := c ≠ Commit ∧ c ≠ Close.

Definition is_execute (q : statement) (c : call) : bool :=
  match c with
  | Execute q' _ => bool_decide (q' = q)
  | _ => false
  end.

(** A call that writes to a table: any statement but the lookup. *)
Definition is_write (c : call) : bool :=
  match c with
  | Execute song_select _ => false
  | Execute _ _ => true
  | _ => false
  end.

Definition count_execute (q : statement) (tr : list call) : nat :=
  length (filter (λ c, is_execute q c = true) tr).

Definition count_writes (tr : list call) : nat :=
  length (filter (λ c, is_write c = true) tr).

(** The three calls of one iteration of the songplay loop. *)
Definition songplay_calls (p : list value * list value) : list call :=
  [Execute song_select p.1; FetchOne; Execute songplay_table_insert p.2].

(** A persisted song and artist match an event: they are joined on the
    artist identifier, and title, artist name and duration are equal to
    the event's song, artist and length, none of them missing. *)
Definition matching_pair (song artist length : value) (s : Song) (a : Artist) : Prop :=
  s_artist_id s = a_artist_id a ∧ s_title s = song ∧ a_name a = artist
  ∧ s_duration s = length
  ∧ a_artist_id a ≠ VNone ∧ song ≠ VNone ∧ artist ≠ VNone ∧ length ≠ VNone.

(** What lines 74-79 make of the rows of the lookup: the two columns of the
    first row, or two missing values. *)
Definition resolved_ids (rows : list (list value)) : value * value :=
  match rows with
  | [songid; artistid] :: _ => (songid, artistid)
  | _ => (VNone, VNone)
  end.

(** The columns that the songplay loop reads from a row. *)
Definition songplay_columns : list string :=
  ["song"; "artist"; "length"; "ts"; "userId"; "level"; "sessionId";
   "location"; "userAgent"].

(** The parameters of the lookup of line 73. *)
Definition lookup_params (row : record) : list value :=
  [cell row "song"; cell row "artist"; cell row "length"].

(** The tuple [songplay_data] of line 82, for a row of timestamp [ts] and
    the identifiers [ids]. *)
Definition songplay_data (host : Host) (row : record) (ts : Z) (ids : value * value)
  : list value :=
  [VDatetime (datetime_fromtimestamp_ms (utcoffset host) ts);
   cell row "userId"; cell row "level"; ids.1; ids.2;
   cell row "sessionId"; cell row "location"; cell row "userAgent"].

(** The columns of lines 27 and 32. *)
Definition song_columns : list string :=
  ["song_id"; "title"; "artist_id"; "year"; "duration"].

Definition artist_columns : list string :=
  ["artist_id"; "artist_name"; "artist_location"; "artist_latitude";
   "artist_longitude"].

(** The columns of line 63. *)
Definition user_columns : list string :=
  ["userId"; "firstName"; "lastName"; "gender"; "level"].

(** The world once [conn.commit()] has gone through. *)
Definition after_commit (w : world) : world :=
  mk_world (session w) (session w) (resultset w) (calls w ++ [Commit]).

(** [loader_run gw func files w segs w']: the loop of [process_data] has
    gone through [files], in this order, from the world [w] to [w'].  For
    each file the extractor ran to its end from the world left by the
    commit of the file before, sending the calls listed in [segs] for it,
    and then its writes were committed. *)
Inductive loader_run (gw : Gateway) (func : path → M unit)
  : list path → world → list (list call) → world → Prop :=
  | loader_done w : loader_run gw func [] w [] w
  | loader_file f files w w1 segs w' :
      func f w = (w1, Ok tt) →
      gw_commit gw (session w1) = true →
      loader_run gw func files (after_commit w1) segs w' →
      loader_run gw func (f :: files) w (emitted (func f) w :: segs) w'.

(** [sends P m]: whatever its outcome, [m] only appends calls that satisfy
    [P] to the calls sent so far. *)
Definition sends {A} (P : call → Prop) (m : M A) : Prop :=
  ∀ w, ∃ tr, calls (m w).1 = calls w ++ tr ∧ Forall P tr.

(** The timestamp of an event, 0 when its [ts] cell is no integer. *)
Definition ts_of (r : record) : Z :=
  match cell r "ts" with
  | VInt ts => ts
  | _ => 0
  end.

(** The row of [time_df] for an event: line 55 applied to its timestamp. *)
Definition time_row_of (r : record) : list value :=
  time_row (gmtime (ts_of r / 1000) (ts_of r mod 1000 * 1000)).

(** The row of [user_df] for an event, line 63. *)
Definition user_row_of (r : record) : list value := cell r <$> user_columns.

(** The three calls of the songplay loop for an event and the identifiers
    that its lookup gave. *)
Definition songplay_calls_of (host : Host) (r : record) (ids : value * value)
  : list call :=
  [Execute song_select (lookup_params r); FetchOne;
   Execute songplay_table_insert (songplay_data host r (ts_of r) ids)].

(** An event whose timestamp [pd.to_datetime] accepts. *)
Definition valid_ts (r : record) : Prop :=
  ∃ ts, cell r "ts" = VInt ts ∧ is_Some (to_datetime_ms ts).

(** A name that ends in [.json]. *)
Definition json_name (name : string) : Prop := ∃ stem, name = stem +:+ ".json".

(** A call of the load of the song files, and one of the load of the event
    files. *)
Definition is_song_load_call (c : call) : Prop :=
  c = Commit
  ∨ ∃ params, c = Execute song_table_insert params ∨ c = Execute artist_table_insert params.

Definition is_log_load_call (c : call) : Prop :=
  c = Commit ∨ is_dimension_write c ∨ is_songplay_call c.

(** A tree in which no directory holds two entries of the same name, as in
    any file system. *)
Fixpoint unique_names (n : node) : bool :=
  match n with
  | File _ => true
  | Dir entries =>
      bool_decide (NoDup entries.*1)
      && (fix all_entries (es : list (string * node)) : bool :=
            match es with
            | [] => true
            | (_, child) :: es' => unique_names child && all_entries es'
            end) entries
  end.

(** ** What a program sends to the connection *)

Section Emits.
Context {A B : Type}.
Implicit Types (P Q : call → Prop).

Lemma emits_ret P (a : A) : emits P (ret a).
Proof. intros w; split; [done|]. exists []. by rewrite app_nil_r. Qed.

Lemma emits_raise P e : emits P (@raise A e).
Proof. intros w; split; [done|]. exists []. by rewrite app_nil_r. Qed.

Lemma emits_lift_option P e (o : option A) : emits P (lift_option e o).
Proof. destruct o; [apply emits_ret | apply emits_raise]. Qed.

Lemma emits_weaken P Q (m : M A) :
  (∀ c, P c → Q c) → emits P m → emits Q m.
Proof.
  intros HPQ Hm w. destruct (Hm w) as [Hc (tr & Htr & HP)].
  split; [done|]. exists tr; split; [done|]. eapply Forall_impl; eauto.
Qed.

Lemma emits_bind P (m : M A) (k : A → M B) :
  emits P m → (∀ a, emits P (k a)) → emits P (bind m k).
Proof.
  intros Hm Hk w. unfold bind.
  destruct (Hm w) as [Hc (tr & Htr & HP)].
  destruct (m w) as [w1 [a|e]]; simpl in *.
  - destruct (Hk a w1) as [Hc' (tr' & Htr' & HP')].
    split; [congruence|]. exists (tr ++ tr').
    rewrite Htr', Htr, app_assoc. split; [done|]. by apply Forall_app.
  - split; [done|]. by exists tr.
Qed.

Lemma emits_emits_then_l P Q (m : M A) : emits P m → emits_then P Q m.
Proof.
  intros Hm w. destruct (Hm w) as [Hc (tr & Htr & HP)].
  split; [done|]. exists tr, []. by rewrite app_nil_r.
Qed.

Lemma emits_emits_then_r P Q (m : M A) : emits Q m → emits_then P Q m.
Proof.
  intros Hm w. destruct (Hm w) as [Hc (tr & Htr & HP)].
  split; [done|]. by exists [], tr.
Qed.

Lemma emits_then_bind_l P Q (m : M A) (k : A → M B) :
  emits P m → (∀ a, emits_then P Q (k a)) → emits_then P Q (bind m k).
Proof.
  intros Hm Hk w. unfold bind.
  destruct (Hm w) as [Hc (tr & Htr & HP)].
  destruct (m w) as [w1 [a|e]]; simpl in *.
  - destruct (Hk a w1) as [Hc' (t1 & t2 & Htr' & HP' & HQ')].
    split; [congruence|]. exists (tr ++ t1), t2.
    rewrite Htr', Htr, !app_assoc. split; [done|]. split; [by apply Forall_app|done].
  - split; [done|]. exists tr, []. by rewrite app_nil_r.
Qed.

Lemma emits_then_bind_r P Q (m : M A) (k : A → M B) :
  emits_then P Q m → (∀ a, emits Q (k a)) → emits_then P Q (bind m k).
Proof.
  intros Hm Hk w. unfold bind.
  destruct (Hm w) as [Hc (t1 & t2 & Htr & HP & HQ)].
  destruct (m w) as [w1 [a|e]]; simpl in *.
  - destruct (Hk a w1) as [Hc' (tr' & Htr' & HQ')].
    split; [congruence|]. exists t1, (t2 ++ tr').
    rewrite Htr', Htr, !app_assoc. split; [done|]. split; [done|by apply Forall_app].
  - split; [done|]. by exists t1, t2.
Qed.

End Emits.

Lemma emits_for_each {A} (P : call → Prop) (l : list A) (body : A → M unit) :
  (∀ x, emits P (body x)) → emits P (for_each l body).
Proof.
  intros Hb. induction l as [|x l IH]; simpl.
  - apply emits_ret.
  - apply emits_bind; [apply Hb | intros _; apply IH].
Qed.

Section CursorCalls.
Context (gw : Gateway) (host : Host).

Lemma emits_execute (P : call → Prop) q params :
  P (Execute q params) → emits P (execute gw q params).
Proof.
  intros HP w. unfold execute.
  destruct q; simpl;
    try (destruct (gw_write gw _ params (session w)); simpl);
    (split; [done|]; eexists; split; [reflexivity|by constructor]).
Qed.

Lemma emits_fetchone (P : call → Prop) : P FetchOne → emits P fetchone.
Proof.
  intros HP w. unfold fetchone; simpl.
  destruct (resultset w) as [[|r rs]|]; simpl;
    (split; [done|]; eexists; split; [reflexivity|by constructor]).
Qed.

Lemma emits_read_json P filepath : emits P (read_json host filepath).
Proof.
  unfold read_json.
  destruct (resolve _ _) as [[[rs|]|es]|];
    first [apply emits_ret | apply emits_raise].
Qed.

Lemma emits_getitem P df c : emits P (getitem df c).
Proof. unfold getitem. case_bool_decide; [apply emits_ret|apply emits_raise]. Qed.

Lemma emits_getitem_list P df cs : emits P (getitem_list df cs).
Proof.
  unfold getitem_list. destruct (filter _ cs); [apply emits_ret|apply emits_raise].
Qed.

Lemma emits_getattr P df row c : emits P (getattr df row c).
Proof. unfold getattr. case_bool_decide; [apply emits_ret|apply emits_raise]. Qed.

Lemma emits_to_datetime P column : emits P (to_datetime column).
Proof.
  induction column as [|v column IH]; simpl; [apply emits_ret|].
  destruct v; try apply emits_raise.
  apply emits_bind; [apply emits_lift_option|intros d].
  apply emits_bind; [apply IH|intros ds; apply emits_ret].
Qed.

Lemma emits_fromtimestamp_ms P ts : emits P (fromtimestamp_ms host ts).
Proof. destruct ts; simpl; first [apply emits_ret | apply emits_raise]. Qed.

Lemma emits_unpack_results P results : emits P (unpack_results results).
Proof.
  destruct results as [[|a [|b [|c r]]]|]; simpl;
    first [apply emits_ret | apply emits_raise].
Qed.

Lemma emits_head_or_IndexError {A} P (l : list A) : emits P (head_or_IndexError l).
Proof. apply emits_lift_option. Qed.

End CursorCalls.

(** ** Inversion of runs *)

Lemma bind_Ok_inv {A B} (m : M A) (k : A → M B) w w' b :
  bind m k w = (w', Ok b) → ∃ w1 a, m w = (w1, Ok a) ∧ k a w1 = (w', Ok b).
Proof.
  unfold bind. destruct (m w) as [w1 [a|e]]; intros H; [eauto|discriminate].
Qed.

Lemma bind_Raise_inv {A B} (m : M A) (k : A → M B) w w' e :
  bind m k w = (w', Raise e) →
  m w = (w', Raise e) ∨ ∃ w1 a, m w = (w1, Ok a) ∧ k a w1 = (w', Raise e).
Proof.
  unfold bind. destruct (m w) as [w1 [a|e']]; intros H; [eauto|left; congruence].
Qed.

Lemma bind_ret_l {A B} (a : A) (k : A → M B) : bind (ret a) k = k a.
Proof. done. Qed.

Lemma bind_run_Ok {A B} (m : M A) (k : A → M B) w w1 a :
  m w = (w1, Ok a) → bind m k w = k a w1.
Proof. intros H. unfold bind. by rewrite H. Qed.

Lemma bind_run_Raise {A B} (m : M A) (k : A → M B) w w1 e :
  m w = (w1, Raise e) → bind m k w = (w1, Raise e).
Proof. intros H. unfold bind. by rewrite H. Qed.

Lemma pure_run {A} (m : M A) w w' r : pure m → m w = (w', r) → w' = w.
Proof. intros Hp H. specialize (Hp w). by rewrite H in Hp. Qed.

Lemma pure_ret {A} (a : A) : pure (ret a).
Proof. done. Qed.

Lemma pure_raise {A} e : pure (@raise A e).
Proof. done. Qed.

Lemma pure_lift_option {A} e (o : option A) : pure (lift_option e o).
Proof. by destruct o. Qed.

Lemma pure_bind {A B} (m : M A) (k : A → M B) :
  pure m → (∀ a, pure (k a)) → pure (bind m k).
Proof.
  intros Hm Hk w. unfold bind. specialize (Hm w).
  destruct (m w) as [w1 [a|e]]; simpl in *; subst; [apply Hk|done].
Qed.

Section PureOps.
Context (host : Host).

Lemma pure_read_json filepath : pure (read_json host filepath).
Proof. unfold read_json. by destruct (resolve _ _) as [[[rs|]|es]|]. Qed.

Lemma pure_getitem df c : pure (getitem df c).
Proof. unfold getitem. by case_bool_decide. Qed.

Lemma pure_getitem_list df cs : pure (getitem_list df cs).
Proof. unfold getitem_list. by destruct (filter _ cs). Qed.

Lemma pure_getattr df row c : pure (getattr df row c).
Proof. unfold getattr. by case_bool_decide. Qed.

Lemma pure_to_datetime column : pure (to_datetime column).
Proof.
  induction column as [|v column IH]; simpl; [done|].
  destruct v; try done.
  apply pure_bind; [apply pure_lift_option|intros d].
  apply pure_bind; [apply IH|done].
Qed.

Lemma pure_fromtimestamp_ms ts : pure (fromtimestamp_ms host ts).
Proof. by destruct ts. Qed.

Lemma pure_unpack_results results : pure (unpack_results results).
Proof. by destruct results as [[|a [|b [|c r]]]|]. Qed.

End PureOps.

Lemma to_datetime_length column w w' t :
  to_datetime column w = (w', Ok t) → length t = length column.
Proof.
  revert w w' t. induction column as [|v column IH]; intros w w' t; simpl.
  - intros [= <- <-]. done.
  - destruct v; try discriminate.
    intros H. apply bind_Ok_inv in H as (w1 & d & _ & H).
    apply bind_Ok_inv in H as (w2 & ds & Hds & H).
    injection H as <- <-. simpl. f_equal. eauto.
Qed.

Section Runs.
Context (gw : Gateway) (host : Host).

Lemma execute_calls q params w :
  calls (execute gw q params w).1 = calls w ++ [Execute q params].
Proof.
  unfold execute. destruct q; simpl; try done;
    by destruct (gw_write gw _ params (session w)).
Qed.

Lemma execute_write_run q params w d :
  q ≠ song_select →
  gw_write gw q params (session w) = Some d →
  execute gw q params w
  = (mk_world (committed w) d None (calls w ++ [Execute q params]), Ok tt).
Proof.
  intros Hq Hd. unfold execute, log_call.
  destruct q; try done; simpl; by rewrite Hd.
Qed.

Lemma execute_write_run_rejected q params w :
  q ≠ song_select →
  gw_write gw q params (session w) = None →
  execute gw q params w = (log_call (Execute q params) w, Raise PersistenceError).
Proof.
  intros Hq Hd. unfold execute, log_call.
  destruct q; try done; simpl; by rewrite Hd.
Qed.

Lemma fetchone_calls w : calls (fetchone w).1 = calls w ++ [FetchOne].
Proof. unfold fetchone; simpl. by destruct (resultset w) as [[|r rs]|]. Qed.

Lemma for_each_execute_Ok q rows w w' :
  for_each rows (execute gw q) w = (w', Ok tt) →
  calls w' = calls w ++ (Execute q <$> rows).
Proof.
  revert w. induction rows as [|r rows IH]; intros w; simpl.
  - intros [= <-]. by rewrite app_nil_r.
  - intros H. apply bind_Ok_inv in H as (w1 & [] & Hr & H).
    rewrite (IH _ H). pose proof (execute_calls q r w) as Hc.
    rewrite Hr in Hc. simpl in Hc. by rewrite Hc, <- app_assoc.
Qed.

End Runs.

(** ** The lookup *)

Lemma sql_eq_true x y : sql_eq x y = true ↔ x = y ∧ y ≠ VNone.
Proof.
  unfold sql_eq.
  destruct x, y; try rewrite bool_decide_eq_true;
    (split; [try discriminate; intros ->; by split | by intros [? ?]]).
Qed.

Lemma song_select_matches_true song artist length s a :
  song_select_matches song artist length s a = true
  ↔ matching_pair song artist length s a.
Proof.
  unfold song_select_matches, matching_pair.
  rewrite !andb_true_iff, !sql_eq_true.
  split.
  - intros [[[[E1 N1] [E2 N2]] [E3 N3]] [E4 N4]]. by subst.
  - intros (E1 & E2 & E3 & E4 & N1 & N2 & N3 & N4). by subst.
Qed.

Lemma elem_of_song_select_rows song artist length d r :
  r ∈ song_select_rows [song; artist; length] d
  ↔ ∃ s a, s ∈ songs d ∧ a ∈ artists d ∧ matching_pair song artist length s a
           ∧ r = [s_song_id s; a_artist_id a].
Proof.
  unfold song_select_rows. rewrite list_elem_of_bind. split.
  - intros (s & Hr & Hs). apply list_elem_of_bind in Hr as (a & Hr & Ha).
    destruct (song_select_matches _ _ _ s a) eqn:Hm.
    + apply list_elem_of_singleton in Hr.
      exists s, a. by rewrite <- song_select_matches_true.
    + by apply not_elem_of_nil in Hr.
  - intros (s & a & Hs & Ha & Hm & ->). exists s. split; [|done].
    apply list_elem_of_bind. exists a. split; [|done].
    apply song_select_matches_true in Hm. rewrite Hm. by apply list_elem_of_singleton.
Qed.

Lemma song_select_rows_nil song artist length d :
  song_select_rows [song; artist; length] d = []
  ↔ ∀ s a, s ∈ songs d → a ∈ artists d → ¬ matching_pair song artist length s a.
Proof.
  split.
  - intros Hnil s a Hs Ha Hm.
    assert (Hin : [s_song_id s; a_artist_id a] ∈ song_select_rows [song; artist; length] d)
      by (apply elem_of_song_select_rows; eauto 10).
    rewrite Hnil in Hin. by apply not_elem_of_nil in Hin.
  - intros Hno. destruct (song_select_rows _ d) as [|r rs] eqn:Hrows; [done|].
    assert (Hin : r ∈ song_select_rows [song; artist; length] d)
      by (rewrite Hrows; left).
    apply elem_of_song_select_rows in Hin as (s & a & Hs & Ha & Hm & _).
    by destruct (Hno s a).
Qed.

Section Songplay.
Context (gw : Gateway) (host : Host).

Lemma getattr_present df row c :
  c ∈ df_columns df → getattr df row c = ret (cell row c).
Proof. intros Hc. unfold getattr. by rewrite bool_decide_eq_true_2. Qed.

Lemma execute_select_run params w :
  execute gw song_select params w
  = (mk_world (committed w) (session w)
       (Some (song_select_rows params (session w)))
       (calls w ++ [Execute song_select params]), Ok tt).
Proof. done. Qed.

Lemma fetchone_run rows w :
  resultset w = Some rows →
  fetchone w
  = (mk_world (committed w) (session w) (Some (tail rows)) (calls w ++ [FetchOne]),
     Ok (head rows)).
Proof.
  intros Hrows. unfold fetchone, log_call; simpl. rewrite Hrows.
  by destruct rows.
Qed.

Lemma unpack_results_rows song artist length d :
  let rows := song_select_rows [song; artist; length] d in
  unpack_results (head rows) = ret (resolved_ids rows).
Proof.
  intros rows. destruct rows as [|r rs] eqn:Hrows; [done|].
  assert (Hr : r ∈ song_select_rows [song; artist; length] d)
    by (fold rows; rewrite Hrows; left).
  by apply elem_of_song_select_rows in Hr as (s & a & _ & _ & _ & ->).
Qed.

(** The run of one iteration of the songplay loop on a row that has the
    columns the loop reads: one lookup, one fetch, one insert. *)
Lemma songplay_step_run df row ts w :
  Forall (λ c, c ∈ df_columns df) songplay_columns →
  cell row "ts" = VInt ts →
  let rows := song_select_rows (lookup_params row) (session w) in
  songplay_step gw host df row w
  = execute gw songplay_table_insert (songplay_data host row ts (resolved_ids rows))
      (mk_world (committed w) (session w) (Some (tail rows))
         (calls w ++ [Execute song_select (lookup_params row); FetchOne])).
Proof.
  intros Hcols Hts rows.
  repeat (apply Forall_cons in Hcols as [? Hcols]).
  unfold songplay_step.
  rewrite !getattr_present by done.
  rewrite !bind_ret_l.
  erewrite bind_run_Ok by apply execute_select_run.
  erewrite bind_run_Ok by (by apply fetchone_run).
  fold (lookup_params row). fold rows.
  unfold lookup_params in rows. subst rows.
  rewrite unpack_results_rows, bind_ret_l, bind_ret_l, Hts.
  change (fromtimestamp_ms host (VInt ts))
    with (ret (datetime_fromtimestamp_ms (utcoffset host) ts)).
  rewrite !bind_ret_l. simpl calls. by rewrite <- app_assoc.
Qed.

End Songplay.

(** ** The calls of the two extractors *)

Lemma emitted_eq {A} (m : M A) w tr :
  calls (m w).1 = calls w ++ tr → emitted m w = tr.
Proof. intros H. unfold emitted. by rewrite H, drop_app_length. Qed.

Section Extractors.
Context (gw : Gateway) (host : Host).

Lemma songplay_step_emits df row :
  emits is_songplay_call (songplay_step gw host df row).
Proof.
  unfold songplay_step.
  repeat first
    [ apply emits_bind; [|intros ?]
    | apply emits_getattr
    | apply emits_unpack_results
    | apply emits_fromtimestamp_ms
    | apply emits_fetchone; by left
    | apply emits_execute; right; eexists; by (left + right) ].
Qed.

(** Whatever the outcome of [process_log_file], what it sends is a run of
    writes to the time and user tables followed by calls of the songplay
    loop. *)
Lemma process_log_file_phases filepath :
  emits_then is_dimension_write is_songplay_call (process_log_file gw host filepath).
Proof.
  unfold process_log_file.
  apply emits_then_bind_l; [apply emits_read_json|intros df].
  apply emits_then_bind_l; [apply emits_getitem|intros _].
  apply emits_then_bind_l; [apply emits_getitem|intros ts].
  apply emits_then_bind_l; [apply emits_to_datetime|intros t].
  apply emits_then_bind_l.
  { apply emits_for_each. intros row. apply emits_execute. eexists; by left. }
  intros _. apply emits_then_bind_l; [apply emits_getitem_list|intros user_df].
  apply emits_then_bind_l.
  { apply emits_for_each. intros row. apply emits_execute. eexists; by right. }
  intros _. apply emits_emits_then_r, emits_for_each.
  intros row. apply songplay_step_emits.
Qed.

Lemma process_song_file_emits filepath :
  emits (λ c, ∃ params, c = Execute song_table_insert params
                        ∨ c = Execute artist_table_insert params)
        (process_song_file gw host filepath).
Proof.
  unfold process_song_file.
  repeat first
    [ apply emits_bind; [|intros ?]
    | apply emits_read_json
    | apply emits_getitem_list
    | apply emits_head_or_IndexError
    | apply emits_execute; eexists; by (left + right) ].
Qed.

(** Neither extractor commits or closes: they only hold the cursor. *)
Lemma extractor_emits_cursor_calls e filepath :
  emits is_cursor_call (func_of gw host e filepath).
Proof.
  destruct e; simpl.
  - eapply emits_weaken; [|apply process_song_file_emits].
    intros c (p & [-> | ->]); by split.
  - intros w. destruct (process_log_file_phases filepath w)
      as [Hc (t1 & t2 & Htr & H1 & H2)].
    split; [done|]. exists (t1 ++ t2). split; [done|].
    apply Forall_app; split; (eapply Forall_impl; [eassumption|]).
    + intros c (p & [-> | ->]); by split.
    + intros c [-> | (p & [-> | ->])]; by split.
Qed.

End Extractors.

(** ** Songplay resolution *)

Section Resolution.
Context (gw : Gateway) (host : Host).

Lemma songplay_step_emitted df row ts w :
  Forall (λ c, c ∈ df_columns df) songplay_columns →
  cell row "ts" = VInt ts →
  emitted (songplay_step gw host df row) w
  = [Execute song_select (lookup_params row); FetchOne;
     Execute songplay_table_insert
       (songplay_data host row ts
          (resolved_ids (song_select_rows (lookup_params row) (session w))))].
Proof.
  intros Hcols Hts. apply emitted_eq.
  rewrite (songplay_step_run gw host df row ts w Hcols Hts).
  rewrite execute_calls. simpl. by rewrite <- app_assoc.
Qed.

Lemma resolved_ids_first song artist length d :
  let rows := song_select_rows [song; artist; length] d in
  rows ≠ [] →
  ∃ s a, s ∈ songs d ∧ a ∈ artists d ∧ matching_pair song artist length s a
         ∧ head rows = Some [s_song_id s; a_artist_id a]
         ∧ resolved_ids rows = (s_song_id s, a_artist_id a).
Proof.
  intros rows Hne. destruct rows as [|r rs] eqn:Hrows; [done|].
  assert (Hr : r ∈ song_select_rows [song; artist; length] d)
    by (fold rows; rewrite Hrows; left).
  apply elem_of_song_select_rows in Hr as (s & a & Hs & Ha & Hm & ->).
  by exists s, a.
Qed.

(** C3.  For a play event [row] (with the columns the loop reads), the
    songplay row that is emitted carries two identifiers [songid] and
    [artistid] such that: when some persisted song and artist match the
    event's song, artist and length exactly, the identifiers are those of
    a matching pair, the first one in the order of the lookup; they are
    those of any given matching pair whose identifiers all matching pairs
    share; and when no pair matches, both are missing (null). *)
Theorem songplay_ids_resolved_by_lookup df row ts w :
  Forall (λ c, c ∈ df_columns df) songplay_columns →
  cell row "ts" = VInt ts →
  let song := cell row "song" in
  let artist := cell row "artist" in
  let length := cell row "length" in
  let persisted s a := s ∈ songs (session w) ∧ a ∈ artists (session w) in
  ∃ songid artistid,
    emitted (songplay_step gw host df row) w
    = [Execute song_select [song; artist; length]; FetchOne;
       Execute songplay_table_insert
         (songplay_data host row ts (songid, artistid))]
    ∧ ((∃ s a, persisted s a ∧ matching_pair song artist length s a) →
       ∃ s a, persisted s a ∧ matching_pair song artist length s a
              ∧ songid = s_song_id s ∧ artistid = a_artist_id a)
    ∧ (∀ s a, persisted s a → matching_pair song artist length s a →
         (∀ s' a', persisted s' a' → matching_pair song artist length s' a' →
                   s_song_id s' = s_song_id s ∧ a_artist_id a' = a_artist_id a) →
         songid = s_song_id s ∧ artistid = a_artist_id a)
    ∧ ((∀ s a, persisted s a → ¬ matching_pair song artist length s a) →
       songid = VNone ∧ artistid = VNone).
Proof.
  intros Hcols Hts song artist length persisted.
  pose (rows := song_select_rows [song; artist; length] (session w)).
  exists (resolved_ids rows).1, (resolved_ids rows).2.
  assert (Hfirst : (∃ s a, persisted s a ∧ matching_pair song artist length s a) →
            ∃ s a, persisted s a ∧ matching_pair song artist length s a
                   ∧ resolved_ids rows = (s_song_id s, a_artist_id a)).
  { intros (s & a & [Hs Ha] & Hm).
    destruct (resolved_ids_first song artist length (session w))
      as (s1 & a1 & Hs1 & Ha1 & Hm1 & _ & Hids).
    - intros Hnil.
      by apply (proj1 (song_select_rows_nil song artist length (session w)) Hnil s a).
    - exists s1, a1. split; [by split|]. by split. }
  split; [|split; [|split]].
  - rewrite (songplay_step_emitted df row ts w Hcols Hts).
    by destruct (resolved_ids _).
  - intros Hex. destruct (Hfirst Hex) as (s & a & Hp & Hm & Hids).
    exists s, a. by rewrite Hids.
  - intros s a Hp Hm Huniq.
    destruct Hfirst as (s1 & a1 & Hp1 & Hm1 & Hids); [by eauto|].
    rewrite Hids. simpl. by apply Huniq.
  - intros Hno.
    assert (Hnil : rows = []).
    { apply (proj2 (song_select_rows_nil song artist length (session w))).
      intros s a Hs Ha. by apply Hno. }
    by rewrite Hnil.
Qed.

(** C10.  When the lookup for a play event returns more than one row, the
    step fetches once, takes the identifiers of the first row, and sends
    exactly one songplay insert with them; the several matches raise
    nothing, the step fails only if the Gateway rejects the insert. *)
Theorem songplay_takes_first_of_many df row ts w :
  Forall (λ c, c ∈ df_columns df) songplay_columns →
  cell row "ts" = VInt ts →
  let rows := song_select_rows (lookup_params row) (session w) in
  (1 < length rows)%nat →
  ∃ songid artistid rest,
    rows = [songid; artistid] :: rest
    ∧ emitted (songplay_step gw host df row) w
      = [Execute song_select (lookup_params row); FetchOne;
         Execute songplay_table_insert
           (songplay_data host row ts (songid, artistid))]
    ∧ (songplay_step gw host df row w).2
      = match gw_write gw songplay_table_insert
                (songplay_data host row ts (songid, artistid)) (session w) with
        | Some _ => Ok tt
        | None => Raise PersistenceError
        end.
Proof.
  intros Hcols Hts rows Hlen.
  assert (Hdef : rows = song_select_rows (lookup_params row) (session w)) by done.
  clearbody rows.
  destruct (resolved_ids_first (cell row "song") (cell row "artist")
              (cell row "length") (session w))
    as (s & a & _ & _ & _ & Hhead & Hids).
  { fold (lookup_params row). rewrite <- Hdef. intros ->. simpl in Hlen. lia. }
  fold (lookup_params row) in Hhead, Hids. rewrite <- Hdef in Hhead, Hids.
  destruct rows as [|r rest]; [done|].
  injection Hhead as ->.
  exists (s_song_id s), (a_artist_id a), rest. split; [done|]. split.
  - rewrite (songplay_step_emitted df row ts w Hcols Hts).
    by rewrite <- Hdef.
  - rewrite (songplay_step_run gw host df row ts w Hcols Hts).
    rewrite <- Hdef. unfold execute; simpl.
    by destruct (gw_write gw _ _ _).
Qed.

(** C6.  Among the calls that the processing of one event file sends,
    every insert into the time table and every upsert into the user table
    comes before every songplay insert. *)
Theorem dimension_rows_sent_before_songplays filepath w (i j : nat) q params params' :
  let tr := emitted (process_log_file gw host filepath) w in
  tr !! i = Some (Execute songplay_table_insert params) →
  tr !! j = Some (Execute q params') →
  q = time_table_insert ∨ q = user_table_insert →
  (j < i)%nat.
Proof.
  intros tr Hi Hj Hq.
  destruct (process_log_file_phases gw host filepath w)
    as [_ (dims & facts & Htr & Hdims & Hfacts)].
  apply emitted_eq in Htr. fold tr in Htr. rewrite Htr in Hi, Hj.
  assert (length dims ≤ i)%nat as Hle.
  { destruct (decide (i < length dims)%nat) as [Hlt|]; [|lia].
    rewrite lookup_app_l in Hi by done.
    eapply Forall_lookup_1 in Hdims as (p & [?|?]); [| |exact Hi]; done. }
  destruct (decide (j < length dims)%nat) as [Hlt|Hge]; [lia|].
  rewrite lookup_app_r in Hj by lia.
  eapply Forall_lookup_1 in Hfacts as [?|(p & [?|?])]; [| | |exact Hj];
    destruct Hq; simplify_eq.
Qed.

End Resolution.

(** ** Counting the writes of an event file *)

Lemma count_execute_app q t1 t2 :
  count_execute q (t1 ++ t2) = (count_execute q t1 + count_execute q t2)%nat.
Proof. unfold count_execute. by rewrite filter_app, length_app. Qed.

Lemma count_writes_app t1 t2 :
  count_writes (t1 ++ t2) = (count_writes t1 + count_writes t2)%nat.
Proof. unfold count_writes. by rewrite filter_app, length_app. Qed.

Lemma count_execute_fmap q q' (rows : list (list value)) :
  count_execute q (Execute q' <$> rows)
  = if bool_decide (q' = q) then length rows else 0%nat.
Proof.
  unfold count_execute. case_bool_decide as Hq.
  - induction rows as [|r rows IH]; [done|].
    rewrite fmap_cons, filter_cons, decide_True.
    + rewrite !length_cons. by f_equal.
    + simpl. by apply bool_decide_eq_true_2.
  - induction rows as [|r rows IH]; [done|].
    rewrite fmap_cons, filter_cons, decide_False; [done|].
    simpl. by rewrite bool_decide_eq_false_2.
Qed.

Lemma count_writes_fmap q (rows : list (list value)) :
  q ≠ song_select → count_writes (Execute q <$> rows) = length rows.
Proof.
  intros Hq. unfold count_writes. induction rows as [|r rows IH]; [done|].
  rewrite fmap_cons, filter_cons, decide_True; [|by destruct q].
  rewrite !length_cons. by f_equal.
Qed.

Lemma count_execute_songplay_calls q (l : list (list value * list value)) :
  count_execute q (l ≫= songplay_calls)
  = if bool_decide (q = song_select ∨ q = songplay_table_insert)
    then length l else 0%nat.
Proof.
  induction l as [|p l IH]; [by case_bool_decide|].
  change ((p :: l) ≫= songplay_calls) with (songplay_calls p ++ (l ≫= songplay_calls)).
  rewrite count_execute_app, IH. unfold count_execute, songplay_calls.
  destruct q; vm_compute; done.
Qed.

Lemma count_writes_songplay_calls (l : list (list value * list value)) :
  count_writes (l ≫= songplay_calls) = length l.
Proof.
  induction l as [|p l IH]; [done|].
  change ((p :: l) ≫= songplay_calls) with (songplay_calls p ++ (l ≫= songplay_calls)).
  by rewrite count_writes_app, IH.
Qed.

Section Counting.
Context (gw : Gateway) (host : Host).

Lemma songplay_step_Ok df row w w' :
  songplay_step gw host df row w = (w', Ok tt) →
  ∃ p, calls w' = calls w ++ songplay_calls p.
Proof.
  unfold songplay_step. intros H.
  apply bind_Ok_inv in H as (w1 & song & H1 & H).
  apply pure_run in H1 as ->; [|apply pure_getattr].
  apply bind_Ok_inv in H as (w1 & artist & H1 & H).
  apply pure_run in H1 as ->; [|apply pure_getattr].
  apply bind_Ok_inv in H as (w1 & len & H1 & H).
  apply pure_run in H1 as ->; [|apply pure_getattr].
  apply bind_Ok_inv in H as (w1 & [] & H1 & H).
  apply bind_Ok_inv in H as (w2 & results & H2 & H).
  apply bind_Ok_inv in H as (w3 & ids & H3 & H).
  apply pure_run in H3 as ->; [|apply pure_unpack_results].
  apply bind_Ok_inv in H as (w3 & ts & H3 & H).
  apply pure_run in H3 as ->; [|apply pure_getattr].
  apply bind_Ok_inv in H as (w3 & start_time & H3 & H).
  apply pure_run in H3 as ->; [|apply pure_fromtimestamp_ms].
  apply bind_Ok_inv in H as (w3 & userId & H3 & H).
  apply pure_run in H3 as ->; [|apply pure_getattr].
  apply bind_Ok_inv in H as (w3 & level & H3 & H).
  apply pure_run in H3 as ->; [|apply pure_getattr].
  apply bind_Ok_inv in H as (w3 & sessionId & H3 & H).
  apply pure_run in H3 as ->; [|apply pure_getattr].
  apply bind_Ok_inv in H as (w3 & location & H3 & H).
  apply pure_run in H3 as ->; [|apply pure_getattr].
  apply bind_Ok_inv in H as (w3 & userAgent & H3 & H).
  apply pure_run in H3 as ->; [|apply pure_getattr].
  pose proof (execute_calls gw song_select [song; artist; len] w) as C1.
  pose proof (fetchone_calls w1) as C2.
  pose proof (execute_calls gw songplay_table_insert
                [VDatetime start_time; userId; level; ids.1; ids.2;
                 sessionId; location; userAgent] w2) as C3.
  rewrite H1 in C1. rewrite H2 in C2. rewrite H in C3. simpl in *.
  eexists (_, _). rewrite C3, C2, C1, <- !app_assoc. reflexivity.
Qed.

Lemma for_each_songplay_step_Ok df rows w w' :
  for_each rows (songplay_step gw host df) w = (w', Ok tt) →
  ∃ l, length l = length rows ∧ calls w' = calls w ++ (l ≫= songplay_calls).
Proof.
  revert w. induction rows as [|r rows IH]; intros w; simpl.
  - intros [= <-]. exists []. by rewrite app_nil_r.
  - intros H. apply bind_Ok_inv in H as (w1 & [] & Hr & H).
    apply songplay_step_Ok in Hr as (p & Hp).
    apply IH in H as (l & Hlen & Hl).
    exists (p :: l). split; [simpl; by rewrite Hlen|].
    rewrite Hl, Hp, <- app_assoc. done.
Qed.

(** The calls of a run of [process_log_file] that raises nothing: one
    time insert and one user upsert per row that passes the filter, then
    one lookup, fetch and songplay insert per such row. *)
Lemma process_log_file_Ok filepath doc w w' :
  resolve (fs host) filepath = Some (File (JsonLines doc)) →
  process_log_file gw host filepath w = (w', Ok tt) →
  let plays := filter (λ r, cell r "page" = VStr "NextSong") doc in
  ∃ (time_df user_df : list (list value)) (l : list (list value * list value)),
    length time_df = length plays ∧ length user_df = length plays
    ∧ length l = length plays
    ∧ calls w' = calls w ++ (Execute time_table_insert <$> time_df)
                 ++ (Execute user_table_insert <$> user_df)
                 ++ (l ≫= songplay_calls).
Proof.
  intros Hfile H plays. unfold process_log_file in H.
  apply bind_Ok_inv in H as (w1 & df & H1 & H).
  pose proof (pure_run _ _ _ _ (pure_read_json host filepath) H1) as ->.
  unfold read_json in H1. rewrite Hfile in H1. injection H1 as <-.
  apply bind_Ok_inv in H as (w1 & page & H1 & H).
  apply pure_run in H1 as ->; [|apply pure_getitem].
  apply bind_Ok_inv in H as (w1 & ts & H1 & H).
  pose proof (pure_run _ _ _ _ (pure_getitem _ _) H1) as ->.
  unfold getitem in H1. case_bool_decide; [|discriminate]. injection H1 as <-.
  apply bind_Ok_inv in H as (w1 & t & H1 & H).
  pose proof (pure_run _ _ _ _ (pure_to_datetime _) H1) as ->.
  apply to_datetime_length in H1. rewrite length_fmap in H1.
  apply bind_Ok_inv in H as (w1 & [] & Htime & H).
  apply for_each_execute_Ok in Htime.
  apply bind_Ok_inv in H as (w2 & user_df & H2 & H).
  pose proof (pure_run _ _ _ _ (pure_getitem_list _ _) H2) as ->.
  unfold getitem_list in H2. destruct (filter _ _); [|discriminate].
  injection H2 as <-.
  apply bind_Ok_inv in H as (w2 & [] & Huser & H).
  apply for_each_execute_Ok in Huser.
  apply for_each_songplay_step_Ok in H as (l & Hlen & Hl).
  eexists _, _, l. split; [|split; [|split]]; [| |exact Hlen|].
  3: { rewrite Hl, Huser, Htime, <- !app_assoc. reflexivity. }
  - by rewrite length_fmap.
  - by rewrite length_fmap.
Qed.

(** C2.  When the processing of an event file with the lines [doc] goes
    through, it has sent exactly [M] inserts into the time table, [M]
    upserts into the user table and [M] songplay inserts, where [M] is
    the number of lines whose page is "NextSong"; these [3 * M] calls are
    all its writes, so the other lines have caused none. *)
Theorem process_log_file_counts filepath doc w w' :
  resolve (fs host) filepath = Some (File (JsonLines doc)) →
  process_log_file gw host filepath w = (w', Ok tt) →
  let M := length (filter (λ r, cell r "page" = VStr "NextSong") doc) in
  let tr := emitted (process_log_file gw host filepath) w in
  count_execute time_table_insert tr = M
  ∧ count_execute user_table_insert tr = M
  ∧ count_execute songplay_table_insert tr = M
  ∧ count_writes tr = (3 * M)%nat.
Proof.
  intros Hfile Hrun M tr.
  destruct (process_log_file_Ok filepath doc w w' Hfile Hrun)
    as (time_df & user_df & l & Ht & Hu & Hl & Hcalls).
  assert (Htr : tr = (Execute time_table_insert <$> time_df)
                     ++ (Execute user_table_insert <$> user_df)
                     ++ (l ≫= songplay_calls)).
  { apply emitted_eq. by rewrite Hrun. }
  rewrite Htr.
  rewrite !count_execute_app, !count_writes_app, !count_execute_fmap,
    !count_execute_songplay_calls, !count_writes_fmap,
    count_writes_songplay_calls by done.
  simpl. fold M in Ht, Hu, Hl. rewrite Ht, Hu, Hl.
  repeat split; lia.
Qed.

End Counting.

(** ** The Song Record Extractor *)

Lemma elem_of_df_columns_first c r0 rest :
  is_Some (r0 !! c) → c ∈ df_columns (DataFrame_of_records (r0 :: rest)).
Proof.
  intros Hc. simpl. apply elem_of_union_l. by apply elem_of_dom.
Qed.

Section SongFile.
Context (gw : Gateway) (host : Host).

Lemma getitem_list_present df cs :
  Forall (λ c, c ∈ df_columns df) cs →
  getitem_list df cs = ret ((λ r, cell r <$> cs) <$> df_rows df).
Proof.
  intros Hcs. unfold getitem_list.
  assert (filter (λ c, c ∉ df_columns df) cs = []) as ->; [|done].
  induction Hcs as [|c cs Hc Hcs IH]; [done|].
  by rewrite filter_cons, decide_False, IH by naive_solver.
Qed.

(** The calls of [process_song_file] on a document whose first record is
    [r0], when the data frame has the columns read and the Gateway
    takes the song insert: both rows come from [r0]. *)
Lemma process_song_file_first_record filepath r0 rest w :
  resolve (fs host) filepath = Some (File (JsonLines (r0 :: rest))) →
  Forall (λ c, c ∈ df_columns (DataFrame_of_records (r0 :: rest)))
         (song_columns ++ artist_columns) →
  is_Some (gw_write gw song_table_insert (cell r0 <$> song_columns) (session w)) →
  emitted (process_song_file gw host filepath) w
  = [Execute song_table_insert (cell r0 <$> song_columns);
     Execute artist_table_insert (cell r0 <$> artist_columns)].
Proof.
  intros Hfile Hcols [d1 Hsong]. apply Forall_app in Hcols as [Hs Ha].
  apply emitted_eq. unfold process_song_file, read_json. rewrite Hfile.
  rewrite bind_ret_l.
  fold song_columns artist_columns.
  rewrite !getitem_list_present by done.
  rewrite bind_ret_l. simpl df_rows. rewrite fmap_cons.
  unfold head_or_IndexError at 1. simpl head. simpl lift_option.
  rewrite bind_ret_l.
  erewrite bind_run_Ok by (by apply execute_write_run).
  rewrite bind_ret_l. unfold head_or_IndexError. simpl head. simpl lift_option.
  rewrite bind_ret_l, execute_calls. simpl. by rewrite <- app_assoc.
Qed.



End SongFile.

(** ** The Loader *)

Lemma bind_assoc {A B C} (m : M A) (k : A → M B) (k' : B → M C) w :
  bind (bind m k) k' w = bind m (λ a, bind (k a) k') w.
Proof. unfold bind. by destruct (m w) as [w1 [a|e]]. Qed.

Lemma for_each_app {A} (l1 l2 : list A) (body : A → M unit) w :
  for_each (l1 ++ l2) body w = bind (for_each l1 body) (λ _, for_each l2 body) w.
Proof.
  revert w. induction l1 as [|x l1 IH]; intros w; simpl; [reflexivity|].
  rewrite bind_assoc. unfold bind at 1 2.
  destruct (body x w) as [w1 [[]|e]]; [|done].
  apply IH.
Qed.

Section Loader.
Context (gw : Gateway) (host : Host).

Lemma commit_run w :
  commit gw w
  = if gw_commit gw (session w) then (after_commit w, Ok tt)
    else (log_call Commit w, Raise PersistenceError).
Proof. done. Qed.

Lemma extractor_calls e filepath w :
  calls (func_of gw host e filepath w).1
  = calls w ++ emitted (func_of gw host e filepath) w
  ∧ Forall is_cursor_call (emitted (func_of gw host e filepath) w)
  ∧ committed (func_of gw host e filepath w).1 = committed w.
Proof.
  destruct (extractor_emits_cursor_calls gw host e filepath w)
    as [Hc (tr & Htr & Hcur)].
  by rewrite (emitted_eq _ _ _ Htr).
Qed.

Lemma process_files_Ok e files w w' :
  process_files gw files (func_of gw host e) w = (w', Ok tt) →
  ∃ segs, loader_run gw (func_of gw host e) files w segs w'
          ∧ calls w' = calls w ++ (segs ≫= λ tr, tr ++ [Commit])
          ∧ Forall (Forall is_cursor_call) segs.
Proof.
  unfold process_files. revert w.
  induction files as [|f files IH]; intros w; simpl.
  - intros [= <-]. exists []. split; [constructor|]. by rewrite app_nil_r.
  - intros H. apply bind_Ok_inv in H as (w2 & [] & Hf & H).
    apply bind_Ok_inv in Hf as (w1 & [] & Hf & Hc).
    rewrite commit_run in Hc.
    destruct (gw_commit gw (session w1)) eqn:Hcommit; [|discriminate].
    injection Hc as <-.
    apply IH in H as (segs & Hrun & Hcalls & Hcur).
    destruct (extractor_calls e f w) as (Hcf & Hcurf & _).
    rewrite Hf in Hcf. simpl in Hcf.
    exists (emitted (func_of gw host e f) w :: segs).
    split; [by econstructor|]. split; [|by constructor].
    rewrite Hcalls. simpl. rewrite Hcf, <- !app_assoc. done.
Qed.

(** C7.  A load that goes through has processed the files found, in the
    order of discovery; each file's extractor has run from the world left
    by the commit of the file before it, and the calls of the load are,
    file by file, the calls of the extractor followed by one commit: no
    commit closes the writes of two files. *)
Theorem process_data_commits_each_file folder_path e w w' :
  process_data gw host folder_path (func_of gw host e) w = (w', Ok tt) →
  ∃ segs,
    loader_run gw (func_of gw host e) (all_files host folder_path) w segs w'
    ∧ emitted (process_data gw host folder_path (func_of gw host e)) w
      = (segs ≫= λ tr, tr ++ [Commit])
    ∧ Forall (Forall is_cursor_call) segs.
Proof.
  intros H. unfold process_data in *.
  destruct (process_files_Ok e _ w w' H) as (segs & Hrun & Hcalls & Hcur).
  exists segs. split; [done|]. split; [|done].
  apply emitted_eq. by rewrite H.
Qed.

Lemma loader_run_committed func files w segs w' :
  loader_run gw func files w segs w' → files ≠ [] → committed w' = session w'.
Proof.
  induction 1 as [|f files w w1 segs w' Hf Hc Hrun IH]; [done|].
  intros _. destruct files as [|f' files]; [|by apply IH].
  by inversion Hrun.
Qed.


(** X1.  A commit that the Gateway refuses is not caught either: the load
    raises right after the commit call, the files after it are not
    processed, and the committed database is what it was before the
    extractor ran on the file. *)
Lemma process_data_commit_failure_propagates folder_path e pre f post w w1 w2 :
  all_files host folder_path = pre ++ f :: post →
  process_files gw pre (func_of gw host e) w = (w1, Ok tt) →
  func_of gw host e f w1 = (w2, Ok tt) →
  gw_commit gw (session w2) = false →
  process_data gw host folder_path (func_of gw host e) w
  = (log_call Commit w2, Raise PersistenceError)
  ∧ committed w2 = committed w1.
Proof.
  intros Hfiles Hpre Hf Hc.
  destruct (extractor_calls e f w1) as (_ & _ & Hcomm).
  rewrite Hf in Hcomm. split; [|done].
  unfold process_data, process_files in *. rewrite Hfiles, for_each_app.
  erewrite bind_run_Ok by exact Hpre. simpl.
  erewrite bind_run_Raise; [done|]. erewrite bind_run_Ok by exact Hf.
  by rewrite commit_run, Hc.
Qed.

(** An error of the first load ends [main]: the event files are not
    looked at and the connection is not closed. *)
Lemma main_propagates w w' err :
  process_data gw host ["data"; "song_data"] (process_song_file gw host) w
  = (w', Raise err) →
  main gw host w = (w', Raise err).
Proof. intros H. unfold main. by erewrite bind_run_Raise. Qed.

End Loader.

(** ** The event file runs through on well-formed input *)

Section Totality.
Context (gw : Gateway) (host : Host).

(** A Gateway that takes every write. *)
Hypothesis accepts :
  ∀ q params d, q ≠ song_select → is_Some (gw_write gw q params d).

Lemma for_each_execute_accepted q rows w :
  q ≠ song_select →
  ∃ w', for_each rows (execute gw q) w = (w', Ok tt).
Proof.
  intros Hq. revert w. induction rows as [|r rows IH]; intros w; simpl.
  - by eexists.
  - destruct (accepts q r (session w) Hq) as [d Hd].
    erewrite bind_run_Ok by (by apply execute_write_run). apply IH.
Qed.

Lemma to_datetime_Ok rows w :
  Forall (λ r, ∃ ts, cell r "ts" = VInt ts ∧ is_Some (to_datetime_ms ts)) rows →
  ∃ t, to_datetime ((λ r, cell r "ts") <$> rows) w = (w, Ok t).
Proof.
  induction 1 as [|r rows (ts & Hts & [d Hd]) _ [t IH]]; simpl.
  - by eexists.
  - rewrite Hts, Hd. simpl. rewrite bind_ret_l.
    erewrite bind_run_Ok by exact IH. by eexists.
Qed.

Lemma for_each_songplay_step_accepted df rows w :
  Forall (λ c, c ∈ df_columns df) songplay_columns →
  Forall (λ r, ∃ ts, cell r "ts" = VInt ts ∧ is_Some (to_datetime_ms ts)) rows →
  ∃ w', for_each rows (songplay_step gw host df) w = (w', Ok tt).
Proof.
  intros Hcols Hrows. revert w.
  induction Hrows as [|r rows (ts & Hts & _) _ IH]; intros w; simpl.
  - by eexists.
  - destruct (accepts songplay_table_insert
                (songplay_data host r ts
                   (resolved_ids (song_select_rows (lookup_params r) (session w))))
                (session w)) as [d Hd]; [done|].
    erewrite bind_run_Ok; [apply IH|].
    rewrite (songplay_step_run gw host df r ts w Hcols Hts).
    apply execute_write_run; [done|exact Hd].
Qed.

(** X2.  An event file whose data frame has the columns read, and whose play
    events carry integer timestamps within the range of pandas, is
    processed to its end by a Gateway that takes every write. *)
Lemma process_log_file_succeeds filepath doc w :
  resolve (fs host) filepath = Some (File (JsonLines doc)) →
  Forall (λ c, c ∈ df_columns (DataFrame_of_records doc))
         ("page" :: user_columns ++ songplay_columns) →
  Forall (λ r, ∃ ts, cell r "ts" = VInt ts ∧ is_Some (to_datetime_ms ts))
         (filter (λ r, cell r "page" = VStr "NextSong") doc) →
  ∃ w', process_log_file gw host filepath w = (w', Ok tt).
Proof.
  intros Hfile Hcols Hplays.
  apply Forall_cons in Hcols as [Hpage Hcols].
  apply Forall_app in Hcols as [Hucols Hscols].
  assert (Hts : "ts" ∈ df_columns (DataFrame_of_records doc)).
  { by do 3 apply Forall_cons in Hscols as [_ Hscols];
      apply Forall_cons in Hscols as [? _]. }
  unfold process_log_file, read_json. rewrite Hfile, bind_ret_l.
  unfold getitem at 1. rewrite bool_decide_eq_true_2, bind_ret_l by done.
  unfold getitem. simpl df_columns. rewrite bool_decide_eq_true_2, bind_ret_l by done.
  simpl df_rows.
  destruct (to_datetime_Ok _ w Hplays) as [t Ht].
  erewrite bind_run_Ok by exact Ht.
  destruct (for_each_execute_accepted time_table_insert (time_row <$> t) w)
    as [w1 H1]; [done|].
  erewrite bind_run_Ok by exact H1.
  fold user_columns. rewrite getitem_list_present, bind_ret_l by done.
  simpl df_rows.
  destruct (for_each_execute_accepted user_table_insert
              ((λ r, cell r <$> user_columns)
                 <$> filter (λ r, cell r "page" = VStr "NextSong") doc) w1)
    as [w2 H2]; [done|].
  erewrite bind_run_Ok by exact H2.
  by apply for_each_songplay_step_accepted.
Qed.

End Totality.

Import Sample.

(** ** Start times *)

Lemma gmtime_time_of_day secs us :
  let d := gmtime secs us in
  dt_hour d * 3600 + dt_minute d * 60 + dt_second d = secs mod 86400.
Proof.
  unfold gmtime. destruct (Calendar._ord2ymd _) as [[y m] d]. simpl.
  generalize (secs mod 86400). intros a. Z.div_mod_to_equations. lia.
Qed.

(** On a host whose clock is set to UTC the two start times agree. *)
Lemma fromtimestamp_agrees_on_utc_host off ts d :
  off (ts / 1000) = 0 →
  to_datetime_ms ts = Some d →
  datetime_fromtimestamp_ms off ts = d.
Proof.
  unfold to_datetime_ms, datetime_fromtimestamp_ms. intros ->.
  case_match; [|done]. rewrite Z.add_0_r. congruence.
Qed.

(** On any other host (an offset that is not a whole number of days) the
    start time of the songplay row is not the one of the time row. *)
Lemma fromtimestamp_differs_off_utc off ts d :
  off (ts / 1000) mod 86400 ≠ 0 →
  to_datetime_ms ts = Some d →
  datetime_fromtimestamp_ms off ts ≠ d.
Proof.
  unfold to_datetime_ms, datetime_fromtimestamp_ms. intros Hoff.
  case_match; [|done]. intros [= <-] Heq.
  pose proof (gmtime_time_of_day (ts / 1000) (ts mod 1000 * 1000)) as H1.
  pose proof (gmtime_time_of_day (ts / 1000 + off (ts / 1000)) (ts mod 1000 * 1000)) as H2.
  simpl in H1, H2. rewrite Heq in H2. rewrite H1 in H2.
  apply Hoff. revert H2. generalize (off (ts / 1000)) (ts / 1000). intros o s.
  Z.div_mod_to_equations. lia.
Qed.

(** C1.  The event file with the one play event of timestamp
    1000000000000, processed on a host one hour ahead of UTC: the time row
    starts at 2001-09-09 01:46:40, which is the UTC instant, and the
    songplay row of the same event at 2001-09-09 02:46:40. *)
Theorem songplay_start_time_is_host_local_time :
  emitted (process_log_file memory_gateway (cet_host one_play_tree) one_play_path)
          (connect empty_db)
  = [Execute time_table_insert
       [VDatetime (mk_datetime 2001 9 9 1 46 40 0);
        VInt 1; VInt 9; VInt 36; VInt 9; VInt 2001; VInt 7];
     Execute user_table_insert
       [VInt 8; VStr "Ada"; VStr "Lovelace"; VStr "F"; VStr "free"];
     Execute song_select [VStr "Song A"; VStr "Artist X"; VFloat f180_5];
     FetchOne;
     Execute songplay_table_insert
       [VDatetime (mk_datetime 2001 9 9 2 46 40 0);
        VInt 8; VStr "free"; VNone; VNone; VInt 7; VStr "London"; VStr "Mozilla"]].
Proof. vm_compute. reflexivity. Qed.

(** ** Discovery *)

(** C4.  A data set kept in a directory named [A[1]]: the song file in it
    is a [.json] file of the recursive listing of [data/song_data], yet the
    list of files found is empty, because [glob] reads the brackets of the
    directory name as a pattern; the load ends without having read it. *)
Theorem all_files_misses_file_under_brackets :
  let host := utc_host bracket_tree in
  resolve (fs host) ["home"; "student"; "data"; "song_data"; "A[1]"; "TRAAA.json"]
  = Some (File (JsonLines [song_S1]))
  ∧ os_walk host ["data"; "song_data"]
    = [["data"; "song_data"]; ["data"; "song_data"; "A[1]"]]
  ∧ all_files host ["data"; "song_data"] = []
  ∧ process_data memory_gateway host ["data"; "song_data"]
      (process_song_file memory_gateway host) (connect empty_db)
    = (connect empty_db, Ok tt).
Proof. vm_compute. done. Qed.

(** A directory whose name ends in [.json] is returned as if it were a
    file, and the load stops on it. *)
Lemma all_files_returns_a_directory :
  let host := utc_host json_dir_tree in
  all_files host ["data"; "song_data"]
  = [["home"; "student"; "data"; "song_data"; "A.json"];
     ["home"; "student"; "data"; "song_data"; "A.json"; "TRAAA.json"]]
  ∧ (is_dir <$> resolve (fs host) ["home"; "student"; "data"; "song_data"; "A.json"])
    = Some true
  ∧ process_data memory_gateway host ["data"; "song_data"]
      (process_song_file memory_gateway host) (connect empty_db)
    = (connect empty_db, Raise IsADirectoryError).
Proof. vm_compute. done. Qed.

(** A song file whose name starts with a dot is not found. *)
Lemma all_files_skips_hidden_file :
  all_files (utc_host hidden_tree) ["data"; "song_data"] = [].
Proof. vm_compute. reflexivity. Qed.

(** ** What the extractors and the Loader never do *)

Lemma emits_sends {A} (P : call → Prop) (m : M A) : emits P m → sends P m.
Proof. intros Hm w. by destruct (Hm w) as [_ ?]. Qed.

Lemma sends_bind {A B} (P : call → Prop) (m : M A) (k : A → M B) :
  sends P m → (∀ a, sends P (k a)) → sends P (bind m k).
Proof.
  intros Hm Hk w. unfold bind.
  destruct (Hm w) as (tr & Htr & HP).
  destruct (m w) as [w1 [a|e]]; simpl in *.
  - destruct (Hk a w1) as (tr' & Htr' & HP').
    exists (tr ++ tr'). rewrite Htr', Htr, app_assoc. split; [done|].
    by apply Forall_app.
  - by exists tr.
Qed.

Lemma sends_for_each {A} (P : call → Prop) (l : list A) (body : A → M unit) :
  (∀ x, sends P (body x)) → sends P (for_each l body).
Proof.
  intros Hb. induction l as [|x l IH]; simpl.
  - intros w. exists []. by rewrite app_nil_r.
  - apply sends_bind; [apply Hb | intros _; apply IH].
Qed.

Section Never.
Context (gw : Gateway) (host : Host).

Lemma sends_commit (P : call → Prop) : P Commit → sends P (commit gw).
Proof.
  intros HP w. rewrite commit_run.
  destruct (gw_commit gw (session w)); simpl;
    (eexists; split; [reflexivity|by constructor]).
Qed.

Lemma process_data_sends_no_close folder_path e :
  sends (λ c, c ≠ Close) (process_data gw host folder_path (func_of gw host e)).
Proof.
  unfold process_data, process_files. apply sends_for_each. intros f.
  apply sends_bind; [|intros _; by apply sends_commit].
  apply emits_sends. eapply emits_weaken; [|apply extractor_emits_cursor_calls].
  by intros c [_ ?].
Qed.

(** X3.  Neither extractor ever commits, closes the connection or changes the
    committed database, whatever the file and whatever the outcome: all
    that an extractor sends goes through the cursor. *)
Theorem extractors_never_commit e filepath w :
  committed (func_of gw host e filepath w).1 = committed w
  ∧ (Commit ∉ emitted (func_of gw host e filepath) w)
  ∧ (Close ∉ emitted (func_of gw host e filepath) w).
Proof.
  destruct (extractor_calls gw host e filepath w) as (_ & Hcur & Hc).
  split; [done|]. rewrite Forall_forall in Hcur.
  split; intros Hin; by destruct (Hcur _ Hin).
Qed.


End Never.

(** ** Edge cases of the extractors *)

Lemma to_datetime_Ok_inv column w w' t :
  to_datetime column w = (w', Ok t) →
  Forall2 (λ v d, ∃ ts, v = VInt ts ∧ to_datetime_ms ts = Some d) column t.
Proof.
  revert w w' t. induction column as [|v column IH]; intros w w' t; simpl.
  - intros [= <- <-]. constructor.
  - destruct v; try discriminate.
    intros H. apply bind_Ok_inv in H as (w1 & d & Hd & H).
    apply bind_Ok_inv in H as (w2 & ds & Hds & H).
    injection H as <- <-.
    constructor; [|by eapply IH].
    exists n. split; [done|].
    destruct (to_datetime_ms n); simpl in Hd; [|discriminate]. by injection Hd as _ ->.
Qed.

Lemma getitem_list_missing df cs :
  ¬ Forall (λ c, c ∈ df_columns df) cs →
  ∃ key, key ∈ cs ∧ (key ∉ df_columns df)
         ∧ getitem_list df cs = raise (KeyError key).
Proof.
  intros Hcs. unfold getitem_list.
  destruct (filter (λ c, c ∉ df_columns df) cs) as [|key l] eqn:Hf.
  - destruct Hcs. apply Forall_forall. intros c Hc.
    destruct (decide (c ∈ df_columns df)) as [|Hn]; [done|].
    assert (c ∈ filter (λ c, c ∉ df_columns df) cs) as Hin
      by (by apply list_elem_of_filter).
    rewrite Hf in Hin. by apply not_elem_of_nil in Hin.
  - assert (key ∈ filter (λ c, c ∉ df_columns df) cs) as Hin by (rewrite Hf; left).
    apply list_elem_of_filter in Hin as [? ?]. by exists key.
Qed.

Section Edges.
Context (gw : Gateway) (host : Host).

(** X5.  A file without a single line makes either extractor raise KeyError:
    its data frame has no column. *)
Theorem extractor_on_empty_file e filepath w :
  resolve (fs host) filepath = Some (File (JsonLines [])) →
  ∃ key, func_of gw host e filepath w = (w, Raise (KeyError key)).
Proof.
  intros Hfile.
  destruct e; simpl; unfold process_song_file, process_log_file, read_json;
    rewrite Hfile, bind_ret_l; eexists; reflexivity.
Qed.

Lemma to_datetime_out_of_range rows w :
  Forall (λ r, ∃ ts, cell r "ts" = VInt ts) rows →
  Exists (λ r, to_datetime_ms (ts_of r) = None) rows →
  to_datetime ((λ r, cell r "ts") <$> rows) w = (w, Raise OutOfBoundsDatetime).
Proof.
  intros Hint. induction Hint as [|r rows [ts Hts] _ IH]; intros Hex.
  - by apply Exists_nil in Hex.
  - rewrite fmap_cons, Hts. simpl.
    apply Exists_cons in Hex as [Hr|Hrows].
    + unfold ts_of in Hr. rewrite Hts in Hr. by rewrite Hr.
    + destruct (to_datetime_ms ts) as [d|]; [|done]. simpl. rewrite bind_ret_l.
      by erewrite bind_run_Raise by (by apply IH).
Qed.

(** X6.  The timestamps of an event file are converted together, before the
    first insert: when the timestamp of one play event, wherever it is
    in the file, is outside the range of pandas, [process_log_file]
    raises OutOfBoundsDatetime and has sent nothing, not even the rows
    of the events before it. *)
Theorem process_log_file_out_of_range_timestamp filepath doc w :
  resolve (fs host) filepath = Some (File (JsonLines doc)) →
  "page" ∈ df_columns (DataFrame_of_records doc) →
  "ts" ∈ df_columns (DataFrame_of_records doc) →
  let plays := filter (λ r, cell r "page" = VStr "NextSong") doc in
  Forall (λ r, ∃ ts, cell r "ts" = VInt ts) plays →
  Exists (λ r, to_datetime_ms (ts_of r) = None) plays →
  process_log_file gw host filepath w = (w, Raise OutOfBoundsDatetime).
Proof.
  intros Hfile Hpage Hts plays Hint Hex.
  unfold process_log_file, read_json. rewrite Hfile, bind_ret_l.
  unfold getitem at 1. rewrite bool_decide_eq_true_2, bind_ret_l by done.
  unfold getitem. simpl df_columns. rewrite bool_decide_eq_true_2, bind_ret_l by done.
  simpl df_rows. fold plays.
  by erewrite bind_run_Raise by (by apply to_datetime_out_of_range).
Qed.

(** X7.  An event file without a play event is processed without a single
    call, as long as its lines have the page, ts and user columns; the
    columns that only the songplay loop reads may be missing. *)
Theorem process_log_file_without_plays filepath doc w :
  resolve (fs host) filepath = Some (File (JsonLines doc)) →
  filter (λ r, cell r "page" = VStr "NextSong") doc = [] →
  Forall (λ c, c ∈ df_columns (DataFrame_of_records doc))
         ("page" :: "ts" :: user_columns) →
  process_log_file gw host filepath w = (w, Ok tt).
Proof.
  intros Hfile Hplays Hcols.
  apply Forall_cons in Hcols as [Hpage Hcols].
  apply Forall_cons in Hcols as [Hts Hcols].
  unfold process_log_file, read_json. rewrite Hfile, bind_ret_l.
  unfold getitem at 1. rewrite bool_decide_eq_true_2, bind_ret_l by done.
  unfold getitem. simpl df_columns. rewrite bool_decide_eq_true_2, bind_ret_l by done.
  fold user_columns. rewrite getitem_list_present by done.
  simpl df_rows. rewrite Hplays. reflexivity.
Qed.

(** X8.  [process_song_file] sends nothing before it has parsed the file and
    found a first record with the five song columns: when one of these
    fails, the run raises in the world it started from. *)
Theorem process_song_file_validates_before_writing filepath w :
  (∃ r0 rest,
     resolve (fs host) filepath = Some (File (JsonLines (r0 :: rest)))
     ∧ Forall (λ c, c ∈ df_columns (DataFrame_of_records (r0 :: rest))) song_columns)
  ∨ (∃ err, process_song_file gw host filepath w = (w, Raise err)).
Proof.
  unfold process_song_file, read_json.
  destruct (resolve (fs host) filepath) as [[[doc|]|es]|] eqn:Hfile;
    try (right; by eexists).
  rewrite bind_ret_l. fold song_columns.
  destruct (decide (Forall (λ c, c ∈ df_columns (DataFrame_of_records doc)) song_columns))
    as [Hcols|Hcols].
  - destruct doc as [|r0 rest]; [|left; by exists r0, rest].
    right. rewrite getitem_list_present by done. by eexists.
  - right. apply getitem_list_missing in Hcols as (key & _ & _ & ->). by eexists.
Qed.

(** X9.  When the Gateway rejects the song insert, [process_song_file] stops
    there: the artist upsert is never sent and the artist columns are not
    even looked at. *)
Theorem process_song_file_stops_at_rejected_song filepath r0 rest w :
  resolve (fs host) filepath = Some (File (JsonLines (r0 :: rest))) →
  Forall (λ c, c ∈ df_columns (DataFrame_of_records (r0 :: rest))) song_columns →
  gw_write gw song_table_insert (cell r0 <$> song_columns) (session w) = None →
  process_song_file gw host filepath w
  = (log_call (Execute song_table_insert (cell r0 <$> song_columns)) w,
     Raise PersistenceError).
Proof.
  intros Hfile Hcols Hgw.
  unfold process_song_file, read_json. rewrite Hfile, bind_ret_l.
  fold song_columns. rewrite getitem_list_present, bind_ret_l by done.
  simpl df_rows. rewrite fmap_cons.
  unfold head_or_IndexError at 1. simpl head. simpl lift_option.
  rewrite bind_ret_l.
  by erewrite bind_run_Raise by (by apply execute_write_run_rejected).
Qed.

(** X10.  A song file that lacks an artist column is noticed only after the
    song insert: the song row is in the open transaction (not in the
    committed database) when KeyError is raised. *)
Theorem process_song_file_missing_artist_column filepath r0 rest w d :
  resolve (fs host) filepath = Some (File (JsonLines (r0 :: rest))) →
  Forall (λ c, c ∈ df_columns (DataFrame_of_records (r0 :: rest))) song_columns →
  ¬ Forall (λ c, c ∈ df_columns (DataFrame_of_records (r0 :: rest))) artist_columns →
  gw_write gw song_table_insert (cell r0 <$> song_columns) (session w) = Some d →
  ∃ key,
    key ∈ artist_columns
    ∧ (key ∉ df_columns (DataFrame_of_records (r0 :: rest)))
    ∧ process_song_file gw host filepath w
      = (mk_world (committed w) d None
           (calls w ++ [Execute song_table_insert (cell r0 <$> song_columns)]),
         Raise (KeyError key)).
Proof.
  intros Hfile Hcols Hart Hgw.
  apply getitem_list_missing in Hart as (key & Hin & Hnot & Hraise).
  exists key. split; [done|]. split; [done|].
  unfold process_song_file, read_json. rewrite Hfile, bind_ret_l.
  fold song_columns artist_columns.
  rewrite getitem_list_present, bind_ret_l by done.
  simpl df_rows. rewrite fmap_cons.
  unfold head_or_IndexError at 1. simpl head. simpl lift_option.
  rewrite bind_ret_l.
  erewrite bind_run_Ok by (by apply execute_write_run).
  by rewrite Hraise.
Qed.

(** X11.  A dataset root that is missing, or that is not a directory, is no
    error: no file is found and the load ends at once, whatever the
    extractor. *)
Theorem process_data_without_root folder_path func w :
  is_dir <$> resolve (fs host) (abspath host folder_path) ≠ Some true →
  all_files host folder_path = []
  ∧ process_data gw host folder_path func w = (w, Ok tt).
Proof.
  intros Hroot.
  assert (Hwalk : os_walk host folder_path = []).
  { unfold os_walk. by destruct (resolve _ _) as [[c|es]|]. }
  assert (Hfiles : all_files host folder_path = [])
    by (unfold all_files; by rewrite Hwalk).
  split; [done|]. unfold process_data. by rewrite Hfiles.
Qed.

End Edges.

(** ** The calls of an event file, parameter by parameter *)

Section LogFile.
Context (gw : Gateway) (host : Host).

Lemma getattr_missing df row c :
  c ∉ df_columns df → getattr df row c = raise (AttributeError c).
Proof. intros Hc. unfold getattr. by rewrite bool_decide_eq_false_2. Qed.

(** One iteration of the songplay loop on a data frame that lacks a
    column the loop reads: AttributeError, before any insert. *)
Lemma songplay_step_missing_column df row ts w :
  cell row "ts" = VInt ts →
  ¬ Forall (λ c, c ∈ df_columns df) songplay_columns →
  ∃ key tr,
    key ∈ songplay_columns ∧ (key ∉ df_columns df)
    ∧ songplay_step gw host df row w
      = (mk_world (committed w) (session w)
           (if decide (tr = []) then resultset w
            else Some (tail (song_select_rows (lookup_params row) (session w))))
           (calls w ++ tr),
         Raise (AttributeError key))
    ∧ (tr = [] ∨ tr = [Execute song_select (lookup_params row); FetchOne]).
Proof.
  intros Hts Hcols. unfold songplay_step.
  assert (Hw : ∀ key, (w, @Raise unit (AttributeError key))
               = (mk_world (committed w) (session w) (resultset w) (calls w ++ []),
                  Raise (AttributeError key))).
  { intros key. rewrite app_nil_r. by destruct w. }
  destruct (decide ("song" ∈ df_columns df)) as [H1|H1]; cycle 1.
  { exists "song", []. rewrite getattr_missing by done.
    split; [compute_done|]. split; [done|]. split; [apply Hw|by left]. }
  rewrite (getattr_present df row "song") by done. rewrite bind_ret_l.
  destruct (decide ("artist" ∈ df_columns df)) as [H2|H2]; cycle 1.
  { exists "artist", []. rewrite getattr_missing by done.
    split; [compute_done|]. split; [done|]. split; [apply Hw|by left]. }
  rewrite (getattr_present df row "artist") by done. rewrite bind_ret_l.
  destruct (decide ("length" ∈ df_columns df)) as [H3|H3]; cycle 1.
  { exists "length", []. rewrite getattr_missing by done.
    split; [compute_done|]. split; [done|]. split; [apply Hw|by left]. }
  rewrite (getattr_present df row "length") by done. rewrite bind_ret_l.
  erewrite bind_run_Ok by apply execute_select_run.
  erewrite bind_run_Ok by (by apply fetchone_run).
  rewrite unpack_results_rows, bind_ret_l.
  fold (lookup_params row). simpl calls. rewrite <- app_assoc. simpl app.
  set (w2 := mk_world _ _ _ _).
  assert (Hw2 : ∀ key, (w2, @Raise unit (AttributeError key))
                = (mk_world (committed w) (session w)
                     (if decide ([Execute song_select (lookup_params row); FetchOne] = [])
                      then resultset w
                      else Some (tail (song_select_rows (lookup_params row) (session w))))
                     (calls w ++ [Execute song_select (lookup_params row); FetchOne]),
                   Raise (AttributeError key))) by done.
  destruct (decide ("ts" ∈ df_columns df)) as [H4|H4]; cycle 1.
  { exists "ts", [Execute song_select (lookup_params row); FetchOne].
    rewrite getattr_missing by done.
    split; [compute_done|]. split; [done|]. split; [apply Hw2|by right]. }
  rewrite (getattr_present df row "ts") by done. rewrite bind_ret_l, Hts.
  change (fromtimestamp_ms host (VInt ts))
    with (ret (datetime_fromtimestamp_ms (utcoffset host) ts)).
  rewrite bind_ret_l.
  destruct (decide ("userId" ∈ df_columns df)) as [H5|H5]; cycle 1.
  { exists "userId", [Execute song_select (lookup_params row); FetchOne].
    rewrite getattr_missing by done.
    split; [compute_done|]. split; [done|]. split; [apply Hw2|by right]. }
  rewrite (getattr_present df row "userId") by done. rewrite bind_ret_l.
  destruct (decide ("level" ∈ df_columns df)) as [H6|H6]; cycle 1.
  { exists "level", [Execute song_select (lookup_params row); FetchOne].
    rewrite getattr_missing by done.
    split; [compute_done|]. split; [done|]. split; [apply Hw2|by right]. }
  rewrite (getattr_present df row "level") by done. rewrite bind_ret_l.
  destruct (decide ("sessionId" ∈ df_columns df)) as [H7|H7]; cycle 1.
  { exists "sessionId", [Execute song_select (lookup_params row); FetchOne].
    rewrite getattr_missing by done.
    split; [compute_done|]. split; [done|]. split; [apply Hw2|by right]. }
  rewrite (getattr_present df row "sessionId") by done. rewrite bind_ret_l.
  destruct (decide ("location" ∈ df_columns df)) as [H8|H8]; cycle 1.
  { exists "location", [Execute song_select (lookup_params row); FetchOne].
    rewrite getattr_missing by done.
    split; [compute_done|]. split; [done|]. split; [apply Hw2|by right]. }
  rewrite (getattr_present df row "location") by done. rewrite bind_ret_l.
  destruct (decide ("userAgent" ∈ df_columns df)) as [H9|H9]; cycle 1.
  { exists "userAgent", [Execute song_select (lookup_params row); FetchOne].
    rewrite getattr_missing by done.
    split; [compute_done|]. split; [done|]. split; [apply Hw2|by right]. }
  destruct Hcols. by repeat constructor.
Qed.

Lemma ts_of_VInt r ts : cell r "ts" = VInt ts → ts_of r = ts.
Proof. intros H. unfold ts_of. by rewrite H. Qed.

Lemma to_datetime_time_rows plays w w' t :
  to_datetime ((λ r, cell r "ts") <$> plays) w = (w', Ok t) →
  Forall valid_ts plays ∧ time_row <$> t = time_row_of <$> plays.
Proof.
  intros H. apply to_datetime_Ok_inv in H. apply Forall2_fmap_l in H.
  induction H as [|r d plays t (ts & Hr & Hd) _ [IH1 IH2]]; [done|].
  split.
  - constructor; [|done]. exists ts. by rewrite Hd.
  - rewrite !fmap_cons. f_equal; [|done].
    unfold time_row_of. rewrite (ts_of_VInt r ts Hr).
    unfold to_datetime_ms in Hd. case_match; by simplify_eq.
Qed.

Lemma to_datetime_Raise column w w' err :
  to_datetime column w = (w', Raise err) →
  err = OutOfBoundsDatetime ∨ err = ValueError.
Proof.
  revert w. induction column as [|v column IH]; intros w; simpl; [done|].
  destruct v; try (intros [= <- <-]; by right).
  intros H. apply bind_Raise_inv in H as [H|(w1 & d & _ & H)].
  - destruct (to_datetime_ms n); simpl in H; [done|]. injection H as <- <-. by left.
  - apply bind_Raise_inv in H as [H|(w2 & ds & _ & H)]; [by eapply IH|done].
Qed.

Lemma for_each_execute_Raise q rows w w' err :
  for_each rows (execute gw q) w = (w', Raise err) → err = PersistenceError.
Proof.
  revert w. induction rows as [|r rows IH]; intros w; simpl; [done|].
  intros H. apply bind_Raise_inv in H as [H|(w1 & [] & _ & H)]; [|by eapply IH].
  unfold execute in H. destruct q; simpl in H; try done;
    destruct (gw_write gw _ r (session w)); by simplify_eq.
Qed.

(** The songplay loop on a data frame that has the columns it reads. *)
Lemma for_each_songplay_step_present df rows w :
  Forall (λ c, c ∈ df_columns df) songplay_columns →
  Forall valid_ts rows →
  match for_each rows (songplay_step gw host df) w with
  | (w', Ok _) =>
      ∃ idss, length idss = length rows
              ∧ calls w' = calls w ++ concat (zip_with (songplay_calls_of host) rows idss)
  | (_, Raise err) => err = PersistenceError
  end.
Proof.
  intros Hcols Hrows. revert w.
  induction Hrows as [|r rows (ts & Hts & _) _ IH]; intros w; simpl.
  - exists []. by rewrite app_nil_r.
  - unfold bind. rewrite (songplay_step_run gw host df r ts w Hcols Hts).
    set (data := songplay_data host r ts _).
    destruct (gw_write gw songplay_table_insert data (session w)) as [d|] eqn:Hd.
    + erewrite execute_write_run by done. simpl.
      match goal with |- context [for_each rows _ ?w1] => specialize (IH w1) end.
      destruct (for_each rows _ _) as [w' [[]|err]]; [|done].
      destruct IH as (idss & Hlen & Hcalls). simpl in Hcalls.
      exists (resolved_ids (song_select_rows (lookup_params r) (session w)) :: idss).
      split; [simpl; by rewrite Hlen|].
      rewrite Hcalls. simpl. unfold songplay_calls_of at 1.
      rewrite (ts_of_VInt r ts Hts). fold data. by rewrite <- !app_assoc.
    + by erewrite execute_write_run_rejected by done.
Qed.

Lemma for_each_songplay_step_AttributeError df rows w w' key :
  Forall valid_ts rows →
  for_each rows (songplay_step gw host df) w = (w', Raise (AttributeError key)) →
  key ∈ songplay_columns ∧ (key ∉ df_columns df)
  ∧ ∃ tr, calls w' = calls w ++ tr
          ∧ Forall (λ c, is_write c = false) tr.
Proof.
  intros Hrows H.
  destruct (decide (Forall (λ c, c ∈ df_columns df) songplay_columns)) as [Hc|Hc].
  - pose proof (for_each_songplay_step_present df rows w Hc Hrows) as Hp.
    rewrite H in Hp. done.
  - destruct Hrows as [|r rows (ts & Hts & _) _]; [done|]. simpl in H.
    destruct (songplay_step_missing_column df r ts w Hts Hc)
      as (key' & tr & Hin & Hnot & Hrun & Htr).
    erewrite bind_run_Raise in H by exact Hrun. injection H as <- <-.
    split; [done|]. split; [done|]. exists tr. split; [done|].
    destruct Htr as [-> | ->]; by repeat constructor.
Qed.


(** X13.  When a column that only the songplay loop reads is missing, the
    AttributeError comes after every time row and every user row of the
    file has been sent, and before any songplay row. *)
Theorem process_log_file_missing_songplay_column filepath doc w key :
  resolve (fs host) filepath = Some (File (JsonLines doc)) →
  (process_log_file gw host filepath w).2 = Raise (AttributeError key) →
  let n := length (filter (λ r, cell r "page" = VStr "NextSong") doc) in
  let tr := emitted (process_log_file gw host filepath) w in
  key ∈ songplay_columns
  ∧ (key ∉ df_columns (DataFrame_of_records doc))
  ∧ count_execute time_table_insert tr = n
  ∧ count_execute user_table_insert tr = n
  ∧ count_execute songplay_table_insert tr = 0%nat.
Proof.
  intros Hfile Hrun n tr.
  destruct (process_log_file gw host filepath w) as [w' r] eqn:Hp.
  simpl in Hrun. subst r. pose proof Hp as H. unfold process_log_file in H.
  apply bind_Raise_inv in H as [H|(w1 & df & H1 & H)].
  { unfold read_json in H. rewrite Hfile in H. done. }
  pose proof (pure_run _ _ _ _ (pure_read_json host filepath) H1) as ->.
  unfold read_json in H1. rewrite Hfile in H1. injection H1 as <-.
  apply bind_Raise_inv in H as [H|(w1 & page & H1 & H)].
  { unfold getitem in H. by case_bool_decide. }
  apply pure_run in H1 as ->; [|apply pure_getitem].
  apply bind_Raise_inv in H as [H|(w1 & ts & H1 & H)].
  { unfold getitem in H. by case_bool_decide. }
  pose proof (pure_run _ _ _ _ (pure_getitem _ _) H1) as ->.
  unfold getitem in H1. case_bool_decide; [|discriminate]. injection H1 as <-.
  apply bind_Raise_inv in H as [H|(w1 & t & H1 & H)].
  { by apply to_datetime_Raise in H as [?|?]. }
  pose proof (pure_run _ _ _ _ (pure_to_datetime _) H1) as ->.
  simpl df_rows in H1.
  pose proof (to_datetime_length _ _ _ _ H1) as Hlen. rewrite length_fmap in Hlen.
  apply to_datetime_time_rows in H1 as [Hvalid _].
  apply bind_Raise_inv in H as [H|(w1 & [] & Htime & H)].
  { by apply for_each_execute_Raise in H. }
  apply for_each_execute_Ok in Htime.
  apply bind_Raise_inv in H as [H|(w2 & user_df & H2 & H)].
  { unfold getitem_list in H. by case_match. }
  pose proof (pure_run _ _ _ _ (pure_getitem_list _ _) H2) as ->.
  destruct (decide (Forall (λ c, c ∈ df_columns
              (filter_eq (DataFrame_of_records doc) "page" (VStr "NextSong")))
              user_columns)) as [Hu|Hu]; cycle 1.
  { destruct (getitem_list_missing _ _ Hu) as (k & _ & _ & Hk).
    unfold user_columns in Hk. by rewrite Hk in H2. }
  apply getitem_list_present in Hu. unfold user_columns in Hu.
  rewrite Hu in H2. injection H2 as <-.
  apply bind_Raise_inv in H as [H|(w2 & [] & Huser & H)].
  { by apply for_each_execute_Raise in H. }
  apply for_each_execute_Ok in Huser.
  apply for_each_songplay_step_AttributeError in H as (Hin & Hnot & tr' & Hcalls & Hno);
    [|done].
  split; [done|]. split; [done|].
  assert (Htr : tr = (Execute time_table_insert <$> (time_row <$> t))
                     ++ (Execute user_table_insert
                           <$> ((λ r, cell r <$> ["userId"; "firstName"; "lastName";
                                                  "gender"; "level"])
                                  <$> filter (λ r, cell r "page" = VStr "NextSong") doc))
                     ++ tr').
  { apply emitted_eq. rewrite Hp. simpl.
    rewrite Hcalls, Huser, Htime, <- !app_assoc. done. }
  assert (Hz : count_execute songplay_table_insert tr' = 0%nat
               ∧ count_execute time_table_insert tr' = 0%nat
               ∧ count_execute user_table_insert tr' = 0%nat).
  { clear -Hno. unfold count_execute.
    induction Hno as [|c tr' Hc _ IH]; [done|].
    rewrite !filter_cons. destruct c as [[] p| | |]; simpl in *; done. }
  destruct Hz as (Hz1 & Hz2 & Hz3).
  rewrite Htr, !count_execute_app, !count_execute_fmap, Hz1, Hz2, Hz3.
  simpl. rewrite !length_fmap, Hlen. fold n. repeat split; lia.
Qed.

End LogFile.

(** ** What the File Discoverer finds *)

Lemma resolve_app n p q :
  resolve n (p ++ q) = resolve n p ≫= λ m, resolve m q.
Proof.
  revert n. induction p as [|c p IH]; intros n; simpl; [done|].
  destruct n as [content|es]; [done|].
  destruct (lookup_entry c es); [apply IH|done].
Qed.

Lemma resolve_prefix n p q : is_Some (resolve n (p ++ q)) → is_Some (resolve n p).
Proof.
  rewrite resolve_app. destruct (resolve n p); [by eexists|]. by intros [? ?].
Qed.

Lemma lookup_entry_Some name es x :
  lookup_entry name es = Some x → (name, x) ∈ es.
Proof.
  induction es as [|[n y] es IH]; simpl; [done|].
  case_bool_decide as Hn.
  - intros [= ->]. subst n. left.
  - intros H. right. by apply IH.
Qed.

Lemma lookup_entry_is_Some name es :
  name ∈ es.*1 → is_Some (lookup_entry name es).
Proof.
  induction es as [|[n y] es IH]; simpl.
  - intros H. by apply not_elem_of_nil in H.
  - intros H. case_bool_decide as Hn; [by eexists|].
    apply IH. apply elem_of_cons in H as [?|?]; [by subst|done].
Qed.

Lemma resolve_snoc_Some n p name :
  is_Some (resolve n (p ++ [name])) →
  ∃ es x, resolve n p = Some (Dir es) ∧ lookup_entry name es = Some x.
Proof.
  rewrite resolve_app. destruct (resolve n p) as [[content|es]|]; simpl;
    try (intros [? ?]; discriminate).
  destruct (lookup_entry name es) as [x|] eqn:Hx; [|intros [? ?]; discriminate].
  intros _. by exists es, x.
Qed.

Lemma walk_tree_child top es name child p :
  (name, child) ∈ es →
  p ∈ walk_tree (top ++ [name]) child →
  p ∈ walk_tree top (Dir es).
Proof.
  intros Hin Hp. simpl. right.
  induction es as [|[n c] es IH]; [by apply not_elem_of_nil in Hin|].
  apply elem_of_app.
  apply elem_of_cons in Hin as [Heq|Hin].
  - injection Heq as <- <-. by left.
  - right. by apply IH.
Qed.

(** [os.walk] reaches every directory below its top. *)
Lemma walk_tree_resolve top n sub es :
  resolve n sub = Some (Dir es) → top ++ sub ∈ walk_tree top n.
Proof.
  revert top n. induction sub as [|c sub IH]; intros top n; simpl.
  - intros [= ->]. rewrite app_nil_r. simpl. left.
  - destruct n as [content|entries]; [done|].
    destruct (lookup_entry c entries) as [x|] eqn:Hx; [|done].
    intros Hsub. apply lookup_entry_Some in Hx.
    eapply walk_tree_child; [exact Hx|].
    replace (top ++ c :: sub) with ((top ++ [c]) ++ sub)
      by (by rewrite <- app_assoc).
    by apply IH.
Qed.

Lemma list_ascii_of_string_app a b :
  list_ascii_of_string (a +:+ b) = list_ascii_of_string a ++ list_ascii_of_string b.
Proof. induction a as [|c a IH]; simpl; [done|]. by rewrite IH. Qed.

Lemma matches_star ts s :
  Fnmatch.matches (Fnmatch.Star :: ts) s = true
  ↔ ∃ s1 s2, s = s1 ++ s2 ∧ Fnmatch.matches ts s2 = true.
Proof.
  induction s as [|c s IH].
  - simpl. rewrite orb_false_r. split.
    + intros H. by exists [], [].
    + intros (s1 & s2 & Hs & H). symmetry in Hs.
      apply app_eq_nil in Hs as [-> ->]. done.
  - change (Fnmatch.matches (Fnmatch.Star :: ts) (c :: s))
      with (Fnmatch.matches ts (c :: s) || Fnmatch.matches (Fnmatch.Star :: ts) s).
    rewrite orb_true_iff, IH. split.
    + intros [H|(s1 & s2 & -> & H)].
      * by exists [], (c :: s).
      * by exists (c :: s1), s2.
    + intros (s1 & s2 & Hs & H). destruct s1 as [|c' s1]; simpl in Hs.
      * left. by subst.
      * right. injection Hs as -> ->. by exists s1, s2.
Qed.

Lemma matches_literals l s :
  Fnmatch.matches (Fnmatch.Lit <$> l) s = true ↔ s = l.
Proof.
  revert s. induction l as [|c l IH]; intros s; simpl.
  - destruct s; [done|]. split; done.
  - destruct s as [|x s]; [split; done|].
    rewrite andb_true_iff, bool_decide_eq_true, IH. split.
    + by intros [-> ->].
    + by intros [= -> ->].
Qed.

(** The pattern of line 108 matches the names that end in [.json], in
    lower case, and no other. *)
Lemma fnmatch_json name : Fnmatch.fnmatch name "*.json" = true ↔ json_name name.
Proof.
  unfold Fnmatch.fnmatch, json_name.
  change (Fnmatch.tokens _ _)
    with (Fnmatch.Star :: (Fnmatch.Lit <$> list_ascii_of_string ".json")).
  rewrite matches_star. split.
  - intros (s1 & s2 & Hs & H). apply matches_literals in H as ->.
    exists (string_of_list_ascii s1).
    rewrite <- (string_of_list_ascii_of_string name), Hs.
    rewrite <- (string_of_list_ascii_of_string
                  (string_of_list_ascii s1 +:+ ".json")).
    by rewrite list_ascii_of_string_app, list_ascii_of_string_of_list_ascii.
  - intros (stem & ->). exists (list_ascii_of_string stem), (list_ascii_of_string ".json").
    split; [apply list_ascii_of_string_app|]. by apply matches_literals.
Qed.

Section Discovery.
Context (host : Host).

Lemma elem_of_glob1_json dir name :
  name ∈ Glob._glob1 (fs host) dir "*.json" false
  ↔ name ∈ (listdir (fs host) dir).*1
    ∧ Glob._ishidden name = false ∧ json_name name.
Proof.
  unfold Glob._glob1.
  change (Glob._ishidden "*.json") with false. cbv iota.
  rewrite !list_elem_of_filter, fnmatch_json. tauto.
Qed.

Lemma elem_of_all_files folder_path f :
  f ∈ all_files host folder_path
  ↔ ∃ root d name,
      root ∈ os_walk host folder_path
      ∧ d ∈ Glob.glob_dirs (fs host) (cwd host) [] root
      ∧ name ∈ Glob._glob1 (fs host) (cwd host ++ d) "*.json" false
      ∧ f = cwd host ++ d ++ [name].
Proof.
  unfold all_files, glob_glob, abspath.
  change (Glob.has_magic "*.json") with true. cbv iota.
  rewrite list_elem_of_bind. split.
  - intros (root & Hf & Hroot).
    apply list_elem_of_bind in Hf as (g & Hf & Hg).
    apply list_elem_of_singleton in Hf as ->.
    apply list_elem_of_bind in Hg as (d & Hg & Hd).
    apply list_elem_of_bind in Hg as (name & Hg & Hname).
    apply list_elem_of_singleton in Hg as ->.
    by exists root, d, name.
  - intros (root & d & name & Hroot & Hd & Hname & ->).
    exists root. split; [|done].
    apply list_elem_of_bind. exists (d ++ [name]).
    split; [by apply list_elem_of_singleton|].
    apply list_elem_of_bind. exists d. split; [|done].
    apply list_elem_of_bind. exists name. split; [|done].
    by apply list_elem_of_singleton.
Qed.

(** X14.  Every path that the Discoverer returns is absolute, names something
    that exists, and has a last component that ends in [.json] and does
    not start with a dot. *)
Theorem all_files_sound folder_path f :
  f ∈ all_files host folder_path →
  ∃ d name,
    f = cwd host ++ d ++ [name]
    ∧ is_Some (resolve (fs host) f)
    ∧ json_name name
    ∧ Glob._ishidden name = false.
Proof.
  intros Hf. apply elem_of_all_files in Hf as (root & d & name & _ & _ & Hname & ->).
  apply elem_of_glob1_json in Hname as (Hin & Hhid & Hjson).
  exists d, name. split; [done|]. split; [|done].
  unfold listdir in Hin.
  destruct (resolve (fs host) (cwd host ++ d)) as [[content|es]|] eqn:Hd;
    try (by apply not_elem_of_nil in Hin).
  rewrite app_assoc, resolve_app, Hd. simpl.
  destruct (lookup_entry_is_Some name es Hin) as [x ->]. by eexists.
Qed.

(** A directory path without magic stands for itself, when it exists. *)
Lemma glob_dirs_literal dir components :
  Forall (λ c, Glob.has_magic c = false) components →
  is_Some (resolve (fs host) (cwd host ++ dir ++ components)) →
  Glob.glob_dirs (fs host) (cwd host) dir components = [dir ++ components].
Proof.
  intros Hmagic. revert dir.
  induction Hmagic as [|c cs Hc _ IH]; intros dir Hres; simpl.
  - by rewrite app_nil_r.
  - rewrite Hc. unfold Glob._glob0.
    assert (Hpre : is_Some (resolve (fs host) ((cwd host ++ dir) ++ [c]))).
    { apply (resolve_prefix _ _ cs). by rewrite <- !app_assoc. }
    destruct Hpre as [x ->]. simpl. rewrite app_nil_r.
    rewrite IH; [by rewrite <- app_assoc|]. by rewrite <- !app_assoc.
Qed.

(** X15.  Below a root, along directories whose names hold none of [*], [?]
    and the opening bracket, the Discoverer finds every entry whose name
    ends in [.json] and does not start with a dot. *)
Theorem all_files_complete folder_path sub name :
  Forall (λ c, Glob.has_magic c = false) (folder_path ++ sub) →
  is_Some (resolve (fs host) (cwd host ++ folder_path ++ sub ++ [name])) →
  json_name name →
  Glob._ishidden name = false →
  cwd host ++ folder_path ++ sub ++ [name] ∈ all_files host folder_path.
Proof.
  intros Hmagic Hres Hjson Hhid.
  assert (Hres' : is_Some (resolve (fs host)
                             ((cwd host ++ folder_path ++ sub) ++ [name])))
    by (by rewrite <- !app_assoc).
  apply resolve_snoc_Some in Hres' as (es & x & Hdir & Hx).
  apply elem_of_all_files. exists (folder_path ++ sub), (folder_path ++ sub), name.
  split; [|split; [|split]].
  - unfold os_walk, abspath.
    rewrite app_assoc, resolve_app in Hdir.
    destruct (resolve (fs host) (cwd host ++ folder_path)) as [n|]; [|done].
    simpl in Hdir. by eapply walk_tree_resolve.
  - rewrite (glob_dirs_literal [] (folder_path ++ sub)); [left|done|].
    simpl. by rewrite Hdir.
  - apply elem_of_glob1_json. split; [|done].
    unfold listdir. rewrite Hdir.
    apply lookup_entry_Some in Hx.
    apply list_elem_of_fmap. by exists (name, x).
  - by rewrite <- !app_assoc.
Qed.

End Discovery.

(** ** No file is found twice *)

Lemma node_nested_ind (P : node → Prop) :
  (∀ c, P (File c)) →
  (∀ es, Forall (λ e, P e.2) es → P (Dir es)) →
  ∀ n, P n.
Proof.
  intros HF HD. fix IH 1. intros [c|es]; [apply HF|]. apply HD.
  induction es as [|[name child] es IHes]; constructor; [apply IH|apply IHes].
Qed.

Lemma unique_names_Dir es :
  unique_names (Dir es) = true
  ↔ NoDup es.*1 ∧ Forall (λ e, unique_names e.2 = true) es.
Proof.
  simpl. rewrite andb_true_iff, bool_decide_eq_true. apply and_iff_compat_l.
  induction es as [|[name child] es IH]; simpl.
  - split; [constructor|done].
  - by rewrite andb_true_iff, IH, Forall_cons.
Qed.

Lemma walk_tree_Dir top es :
  walk_tree top (Dir es) = top :: (es ≫= λ e, walk_tree (top ++ [e.1]) e.2).
Proof.
  simpl. f_equal. induction es as [|[name child] es IH]; [done|].
  rewrite bind_cons. simpl. by rewrite IH.
Qed.

Lemma lookup_entry_unique name child es :
  NoDup es.*1 → (name, child) ∈ es → lookup_entry name es = Some child.
Proof.
  induction es as [|[n c] es IH]; simpl; intros Hnd Hin.
  - by apply not_elem_of_nil in Hin.
  - apply NoDup_cons in Hnd as [Hn Hnd].
    apply elem_of_cons in Hin as [Heq|Hin].
    + injection Heq as -> ->. by rewrite bool_decide_eq_true_2.
    + case_bool_decide as Hname; [|by apply IH].
      subst n. destruct Hn. apply list_elem_of_fmap. by exists (name, child).
Qed.

Lemma unique_names_resolve n p m :
  unique_names n = true → resolve n p = Some m → unique_names m = true.
Proof.
  revert n. induction p as [|c p IH]; intros n Hu; simpl.
  - by intros [= <-].
  - destruct n as [content|es]; [done|].
    destruct (lookup_entry c es) as [x|] eqn:Hx; [|done].
    apply IH. apply unique_names_Dir in Hu as [_ Hall].
    rewrite Forall_forall in Hall. apply lookup_entry_Some in Hx.
    by apply (Hall _ Hx).
Qed.

(** What [os.walk] yields are directories below its top. *)
Lemma walk_tree_spec top n p :
  unique_names n = true →
  p ∈ walk_tree top n →
  ∃ sub es, p = top ++ sub ∧ resolve n sub = Some (Dir es).
Proof.
  revert top. induction n as [c|es IH] using node_nested_ind; intros top Hu Hp.
  - by apply not_elem_of_nil in Hp.
  - rewrite walk_tree_Dir in Hp. apply unique_names_Dir in Hu as [Hnd Hall].
    apply elem_of_cons in Hp as [->|Hp].
    + exists [], es. by rewrite app_nil_r.
    + apply list_elem_of_bind in Hp as ([name child] & Hp & Hin). simpl in Hp.
      rewrite Forall_forall in IH, Hall.
      destruct (IH _ Hin (top ++ [name]) (Hall _ Hin) Hp) as (sub & es' & -> & Hres).
      exists (name :: sub), es'. split; [by rewrite <- app_assoc|].
      simpl. by rewrite (lookup_entry_unique name child es Hnd Hin).
Qed.

(** [os.walk] yields no directory twice. *)
Lemma NoDup_walk_tree top n : unique_names n = true → NoDup (walk_tree top n).
Proof.
  revert top. induction n as [c|es IH] using node_nested_ind; intros top Hu.
  - constructor.
  - rewrite walk_tree_Dir. pose proof Hu as [Hnd Hall]%unique_names_Dir.
    rewrite Forall_forall in IH, Hall.
    apply NoDup_cons. split.
    + intros Hp. apply list_elem_of_bind in Hp as ([name child] & Hp & Hin).
      simpl in Hp.
      apply walk_tree_spec in Hp as (sub & es' & Heq & _); [|by apply (Hall _ Hin)].
      apply (f_equal length) in Heq. rewrite !length_app in Heq. simpl in Heq. lia.
    + apply NoDup_bind.
      * intros [n1 c1] [n2 c2] p Hin1 Hin2 Hp1 Hp2. simpl in *.
        apply walk_tree_spec in Hp1 as (s1 & ? & -> & _); [|by apply (Hall _ Hin1)].
        apply walk_tree_spec in Hp2 as (s2 & ? & Heq & _); [|by apply (Hall _ Hin2)].
        rewrite <- !app_assoc in Heq. apply app_inv_head in Heq.
        injection Heq as -> _.
        pose proof (lookup_entry_unique _ _ _ Hnd Hin1) as H1.
        pose proof (lookup_entry_unique _ _ _ Hnd Hin2) as H2.
        congruence.
      * intros [name child] Hin. simpl.
        apply (IH (name, child) Hin (top ++ [name]) (Hall _ Hin)).
      * by eapply NoDup_fmap_1.
Qed.

Section NoDuplicates.
Context (host : Host).

(** X16.  In a file system whose directories below the root carry no name
    with one of [*], [?] and the opening bracket, the Discoverer returns
    no path twice: no file is processed, and no row is loaded, a second
    time. *)
Theorem all_files_no_duplicates folder_path :
  unique_names (fs host) = true →
  Forall (Forall (λ c, Glob.has_magic c = false)) (os_walk host folder_path) →
  NoDup (all_files host folder_path).
Proof.
  intros Hu Hmagic. rewrite Forall_forall in Hmagic.
  assert (Hroots : ∀ root, root ∈ os_walk host folder_path →
            ∃ es, resolve (fs host) (cwd host ++ root) = Some (Dir es)
                  ∧ NoDup es.*1).
  { intros root Hroot. unfold os_walk, abspath in Hroot.
    destruct (resolve (fs host) (cwd host ++ folder_path)) as [n|] eqn:Hn;
      [|by apply not_elem_of_nil in Hroot].
    pose proof (unique_names_resolve _ _ _ Hu Hn) as Hun.
    apply walk_tree_spec in Hroot as (sub & es & -> & Hres); [|done].
    exists es. split.
    - by rewrite app_assoc, resolve_app, Hn.
    - pose proof (unique_names_resolve _ _ _ Hun Hres) as Hes.
      by apply unique_names_Dir in Hes as [? _]. }
  assert (Hglob : ∀ root, root ∈ os_walk host folder_path →
            glob_glob host root "*.json"
            = Glob._glob1 (fs host) (cwd host ++ root) "*.json" false
                ≫= λ name, [root ++ [name]]).
  { intros root Hroot. unfold glob_glob.
    destruct (Hroots root Hroot) as (es & Hres & _).
    rewrite (glob_dirs_literal host [] root (Hmagic root Hroot))
      by (simpl; by rewrite Hres).
    by rewrite bind_singleton. }
  unfold all_files. apply NoDup_bind.
  - intros root1 root2 f Hr1 Hr2 Hf1 Hf2.
    rewrite (Hglob root1 Hr1) in Hf1. rewrite (Hglob root2 Hr2) in Hf2.
    apply list_elem_of_bind in Hf1 as (g1 & Hf1 & Hg1).
    apply list_elem_of_bind in Hg1 as (n1 & Hg1 & _).
    apply list_elem_of_bind in Hf2 as (g2 & Hf2 & Hg2).
    apply list_elem_of_bind in Hg2 as (n2 & Hg2 & _).
    apply list_elem_of_singleton in Hf1, Hf2, Hg1, Hg2. subst.
    unfold abspath in Hf2. apply app_inv_head in Hf2.
    by apply app_inj_tail in Hf2 as [? _].
  - intros root Hroot. rewrite (Hglob root Hroot).
    destruct (Hroots root Hroot) as (es & Hres & Hnd).
    apply NoDup_bind.
    + intros g1 g2 f _ _ Hf1 Hf2.
      apply list_elem_of_singleton in Hf1, Hf2. subst.
      by apply app_inv_head in Hf2.
    + intros g _. apply NoDup_singleton.
    + apply NoDup_bind.
      * intros n1 n2 g _ _ Hg1 Hg2.
        apply list_elem_of_singleton in Hg1, Hg2. subst.
        apply app_inv_head in Hg2. by injection Hg2.
      * intros name _. apply NoDup_singleton.
      * unfold Glob._glob1, listdir. rewrite Hres.
        change (Glob._ishidden "*.json") with false. cbv iota.
        by do 2 apply NoDup_filter.
  - destruct (resolve (fs host) (abspath host folder_path)) as [n|] eqn:Hn.
    + unfold os_walk. rewrite Hn. apply NoDup_walk_tree.
      by eapply unique_names_resolve.
    + unfold os_walk. rewrite Hn. constructor.
Qed.

End NoDuplicates.

(** ** The order of the two loads, and the two start times *)

Section Order.
Context (gw : Gateway) (host : Host).

Lemma song_load_sends folder_path :
  sends is_song_load_call
        (process_data gw host folder_path (process_song_file gw host)).
Proof.
  unfold process_data, process_files. apply sends_for_each. intros f.
  apply sends_bind; [|intros _; apply sends_commit; by left].
  apply emits_sends. eapply emits_weaken; [|apply process_song_file_emits].
  intros c Hc. by right.
Qed.

Lemma log_load_sends folder_path :
  sends is_log_load_call
        (process_data gw host folder_path (process_log_file gw host)).
Proof.
  unfold process_data, process_files. apply sends_for_each. intros f.
  apply sends_bind; [|intros _; apply sends_commit; by left].
  intros w. destruct (process_log_file_phases gw host f w)
    as [_ (t1 & t2 & Htr & H1 & H2)].
  exists (t1 ++ t2). split; [done|]. apply Forall_app. split.
  - eapply Forall_impl; [exact H1|]. intros c Hc. right. by left.
  - eapply Forall_impl; [exact H2|]. intros c Hc. right. by right.
Qed.

(** X17.  Whatever the files and whatever the outcome, what [main] sends is
    the load of the song files (writes to the song and artist tables and
    commits), then the load of the event files (writes to the time and
    user tables, lookups, fetches, writes to the songplay table and
    commits), then at most the closing of the connection: no song or
    artist is written once the first event file is read. *)
Theorem main_loads_songs_before_events w :
  ∃ t1 t2 t3,
    emitted (main gw host) w = t1 ++ t2 ++ t3
    ∧ Forall is_song_load_call t1
    ∧ Forall is_log_load_call t2
    ∧ (t3 = [] ∨ t3 = [Close]).
Proof.
  destruct (song_load_sends ["data"; "song_data"] w) as (t1 & Ht1 & H1).
  destruct (process_data gw host ["data"; "song_data"] _ w) as [w1 [[]|err]] eqn:E1;
    simpl in Ht1.
  2: { assert (Hm : main gw host w = (w1, Raise err))
         by (unfold main; by erewrite bind_run_Raise).
       exists t1, [], []. split; [|by auto].
       unfold emitted. rewrite Hm. simpl.
       by rewrite Ht1, drop_app_length, app_nil_r. }
  destruct (log_load_sends ["data"; "log_data"] w1) as (t2 & Ht2 & H2).
  destruct (process_data gw host ["data"; "log_data"] _ w1) as [w2 [[]|err]] eqn:E2;
    simpl in Ht2.
  - assert (Hm : main gw host w
                 = (mk_world (committed w2) (committed w2) None (calls w2 ++ [Close]),
                    Ok tt)).
    { unfold main. erewrite bind_run_Ok by exact E1.
      by erewrite bind_run_Ok by exact E2. }
    exists t1, t2, [Close]. split; [|by auto].
    unfold emitted. rewrite Hm. simpl.
    by rewrite Ht2, Ht1, <- !app_assoc, drop_app_length.
  - assert (Hm : main gw host w = (w2, Raise err)).
    { unfold main. erewrite bind_run_Ok by exact E1.
      by erewrite bind_run_Raise by exact E2. }
    exists t1, t2, []. split; [|by auto].
    unfold emitted. rewrite Hm. simpl.
    by rewrite Ht2, Ht1, <- !app_assoc, drop_app_length, app_nil_r.
Qed.


End Order.

(** ** The scenario of the specification, end to end *)

(** The song file and the event file of [data_tree], loaded on a host set
    to UTC: the songplay of "Song A" carries the identifiers of the song
    and artist loaded before it, the one of "Song B" carries none. *)
Lemma main_end_to_end :
  songplays (committed (main memory_gateway (utc_host data_tree) (connect empty_db)).1)
  = [[VDatetime (mk_datetime 2001 9 9 1 46 40 0); VInt 8; VStr "free";
      VStr "S1"; VStr "AR1"; VInt 7; VStr "London"; VStr "Mozilla"];
     [VDatetime (mk_datetime 2001 9 9 1 46 43 500000); VInt 9; VStr "free";
      VNone; VNone; VInt 7; VStr "London"; VStr "Mozilla"]].
Proof. vm_compute. reflexivity. Qed.

(** ** The theorems at work on the sample data *)

(** The play of "Song A" against the database that holds the song: the
    songplay row carries "S1" and "AR1". *)
Lemma songplay_ids_resolved_by_lookup_witness :
  ∃ songid artistid,
    emitted (songplay_step memory_gateway (utc_host data_tree) events_df play_A)
            (connect db_S1)
    = [Execute song_select [cell play_A "song"; cell play_A "artist"; cell play_A "length"];
       FetchOne;
       Execute songplay_table_insert
         (songplay_data (utc_host data_tree) play_A 1000000000000 (songid, artistid))]
    ∧ songid = VStr "S1" ∧ artistid = VStr "AR1".
Proof.
  destruct (songplay_ids_resolved_by_lookup memory_gateway (utc_host data_tree)
              events_df play_A 1000000000000 (connect db_S1))
    as (songid & artistid & Hcalls & _ & Huniq & _).
  - compute_done.
  - vm_compute. reflexivity.
  - exists songid, artistid. split; [exact Hcalls|].
    apply (Huniq (mk_Song (VStr "S1") (VStr "Song A") (VStr "AR1") (VInt 2000)
                    (VFloat f180_5)) artist_AR1).
    + split; apply list_elem_of_singleton; reflexivity.
    + vm_compute. repeat split; discriminate.
    + intros s' a' [Hs Ha] _.
      apply list_elem_of_singleton in Hs. apply list_elem_of_singleton in Ha.
      subst. split; reflexivity.
Defined.

(** The event file of [data_tree], three lines of which two are plays: two
    writes to each of the three tables, six writes in all. *)
Lemma process_log_file_counts_witness :
  let tr := emitted (process_log_file memory_gateway (utc_host data_tree) events_path)
                    (connect db_S1) in
  count_execute time_table_insert tr = 2%nat
  ∧ count_execute user_table_insert tr = 2%nat
  ∧ count_execute songplay_table_insert tr = 2%nat
  ∧ count_writes tr = 6%nat.
Proof.
  apply (process_log_file_counts memory_gateway (utc_host data_tree) events_path
           [play_A; home; play_B] (connect db_S1)
           (process_log_file memory_gateway (utc_host data_tree) events_path
              (connect db_S1)).1).
  - vm_compute. reflexivity.
  - vm_compute. reflexivity.
Defined.

(** Two songs match the play of "Song A": the row carries the first, "S1". *)
Lemma songplay_takes_first_of_many_witness :
  ∃ rest,
    song_select_rows (lookup_params play_A) db_S1_S2 = [VStr "S1"; VStr "AR1"] :: rest
    ∧ emitted (songplay_step memory_gateway (utc_host data_tree) events_df play_A)
              (connect db_S1_S2)
      = [Execute song_select (lookup_params play_A); FetchOne;
         Execute songplay_table_insert
           (songplay_data (utc_host data_tree) play_A 1000000000000
              (VStr "S1", VStr "AR1"))].
Proof.
  destruct (songplay_takes_first_of_many memory_gateway (utc_host data_tree)
              events_df play_A 1000000000000 (connect db_S1_S2))
    as (songid & artistid & rest & Hrows & Hcalls & _).
  - compute_done.
  - vm_compute. reflexivity.
  - vm_compute. lia.
  - exists rest. simpl session in Hrows.
    assert (songid = VStr "S1" ∧ artistid = VStr "AR1") as [-> ->].
    { vm_compute in Hrows. injection Hrows as <- <- _. split; reflexivity. }
    split; [exact Hrows|exact Hcalls].
Defined.

(** In the calls of the event file of [data_tree] the last user upsert is
    call 3 and the first songplay insert is call 6. *)
Lemma dimension_rows_sent_before_songplays_witness :
  let tr := emitted (process_log_file memory_gateway (utc_host data_tree) events_path)
                    (connect db_S1) in
  tr !! 6%nat
  = Some (Execute songplay_table_insert
            (songplay_data (utc_host data_tree) play_A 1000000000000
               (VStr "S1", VStr "AR1")))
  ∧ tr !! 3%nat
    = Some (Execute user_table_insert
              (cell play_B <$> ["userId"; "firstName"; "lastName"; "gender"; "level"]))
  ∧ (3 < 6)%nat.
Proof.
  assert (H6 : emitted (process_log_file memory_gateway (utc_host data_tree) events_path)
                 (connect db_S1) !! 6%nat
               = Some (Execute songplay_table_insert
                         (songplay_data (utc_host data_tree) play_A 1000000000000
                            (VStr "S1", VStr "AR1"))))
    by (vm_compute; reflexivity).
  assert (H3 : emitted (process_log_file memory_gateway (utc_host data_tree) events_path)
                 (connect db_S1) !! 3%nat
               = Some (Execute user_table_insert
                         (cell play_B <$> ["userId"; "firstName"; "lastName"; "gender";
                                           "level"])))
    by (vm_compute; reflexivity).
  split; [exact H6|]. split; [exact H3|].
  exact (dimension_rows_sent_before_songplays memory_gateway (utc_host data_tree)
           events_path (connect db_S1) 6 3 user_table_insert _ _ H6 H3
           (or_intror eq_refl)).
Defined.



(** The load of two song files. *)
Lemma process_data_commits_each_file_witness :
  let host := utc_host two_files_tree in
  let load := process_data memory_gateway host ["data"; "song_data"]
                (func_of memory_gateway host SongExtractor) in
  ∃ segs,
    loader_run memory_gateway (func_of memory_gateway host SongExtractor)
      (all_files host ["data"; "song_data"]) (connect empty_db) segs
      (load (connect empty_db)).1
    ∧ emitted load (connect empty_db) = (segs ≫= λ tr, tr ++ [Commit])
    ∧ Forall (Forall is_cursor_call) segs.
Proof.
  apply (process_data_commits_each_file memory_gateway (utc_host two_files_tree)
           ["data"; "song_data"] SongExtractor (connect empty_db)).
  vm_compute. reflexivity.
Defined.


Lemma Forall_filter_impl {A} (P Q : A → Prop) `{Hdec : !∀ x, Decision (Q x)}
    (l : list A) :
  Forall (λ x, Q x → P x) l → Forall P (filter Q l).
Proof.
  rewrite !Forall_forall. intros Hall x [HQ Hin]%list_elem_of_filter. by apply Hall.
Qed.

Lemma Exists_filter_intro {A} (P Q : A → Prop) `{Hdec : !∀ x, Decision (Q x)}
    (l : list A) :
  Exists (λ x, Q x ∧ P x) l → Exists P (filter Q l).
Proof.
  rewrite !Exists_exists. intros (x & Hin & HQ & HP). exists x.
  split; [by apply list_elem_of_filter|done].
Qed.

(** An event file without a line: KeyError for the page column. *)
Lemma extractor_on_empty_file_witness :
  ∃ key, process_log_file memory_gateway (utc_host empty_file_tree) one_play_path
           (connect empty_db)
         = (connect empty_db, Raise (KeyError key)).
Proof.
  apply (extractor_on_empty_file memory_gateway (utc_host empty_file_tree) LogExtractor
           one_play_path (connect empty_db)).
  vm_compute. reflexivity.
Defined.

(** An event file whose second play event is dated beyond the year 2262:
    nothing is sent, not even the rows of the first. *)
Lemma process_log_file_out_of_range_timestamp_witness :
  process_log_file memory_gateway (utc_host far_tree) one_play_path (connect db_S1)
  = (connect db_S1, Raise OutOfBoundsDatetime).
Proof.
  apply (process_log_file_out_of_range_timestamp memory_gateway (utc_host far_tree)
           one_play_path [play_A; play_far] (connect db_S1)).
  - vm_compute. reflexivity.
  - compute_done.
  - compute_done.
  - apply Forall_filter_impl.
    repeat (apply Forall_cons; split; [intros _; eexists; vm_compute; reflexivity|]).
    by apply Forall_nil.
  - apply Exists_filter_intro. apply Exists_cons. right. apply Exists_cons. left.
    split; vm_compute; reflexivity.
Defined.

(** An event file with the one event [home]. *)
Lemma process_log_file_without_plays_witness :
  process_log_file memory_gateway (utc_host no_play_tree) one_play_path (connect db_S1)
  = (connect db_S1, Ok tt).
Proof.
  apply (process_log_file_without_plays memory_gateway (utc_host no_play_tree)
           one_play_path [home] (connect db_S1)).
  - vm_compute. reflexivity.
  - vm_compute. reflexivity.
  - compute_done.
Defined.

(** The song file of [data_tree] loaded a second time: the song "S1" is
    rejected and the artist upsert is not sent. *)
Lemma process_song_file_stops_at_rejected_song_witness :
  process_song_file memory_gateway (utc_host data_tree) song_path (connect db_S1)
  = (log_call (Execute song_table_insert (cell song_S1 <$> song_columns))
       (connect db_S1),
     Raise PersistenceError).
Proof.
  apply (process_song_file_stops_at_rejected_song memory_gateway (utc_host data_tree)
           song_path song_S1 [] (connect db_S1)).
  - vm_compute. reflexivity.
  - compute_done.
  - vm_compute. reflexivity.
Defined.

(** A song record without [artist_location]: the song is written to the
    open transaction, then KeyError. *)
Lemma process_song_file_missing_artist_column_witness :
  ∃ key,
    key ∈ artist_columns
    ∧ (process_song_file memory_gateway (utc_host no_location_tree) two_records_path
         (connect empty_db)).2 = Raise (KeyError key)
    ∧ songs (session (process_song_file memory_gateway (utc_host no_location_tree)
                        two_records_path (connect empty_db)).1)
      = [mk_Song (VStr "S1") (VStr "Song A") (VStr "AR1") (VInt 2000) (VFloat f180_5)]
    ∧ songs (committed (process_song_file memory_gateway (utc_host no_location_tree)
                          two_records_path (connect empty_db)).1) = [].
Proof.
  destruct (process_song_file_missing_artist_column memory_gateway
              (utc_host no_location_tree) two_records_path song_S1_no_location []
              (connect empty_db)
              (mk_db [mk_Song (VStr "S1") (VStr "Song A") (VStr "AR1") (VInt 2000)
                        (VFloat f180_5)] [] [] [] []))
    as (key & Hin & _ & Hrun).
  - vm_compute. reflexivity.
  - compute_done.
  - compute_done.
  - vm_compute. reflexivity.
  - exists key. rewrite Hrun. repeat split. exact Hin.
Defined.

(** The tree [one_play_tree] has no directory [data/song_data]. *)
Lemma process_data_without_root_witness :
  all_files (utc_host one_play_tree) ["data"; "song_data"] = []
  ∧ process_data memory_gateway (utc_host one_play_tree) ["data"; "song_data"]
      (process_song_file memory_gateway (utc_host one_play_tree)) (connect empty_db)
    = (connect empty_db, Ok tt).
Proof.
  apply (process_data_without_root memory_gateway (utc_host one_play_tree)
           ["data"; "song_data"]).
  vm_compute. discriminate.
Defined.


(** An event file of two plays without the [userAgent] field: two time
    rows and two user rows are sent, no songplay row. *)
Lemma process_log_file_missing_songplay_column_witness :
  let tr := emitted (process_log_file memory_gateway (utc_host no_agent_tree)
                       one_play_path) (connect db_S1) in
  "userAgent" ∈ songplay_columns
  ∧ ("userAgent" ∉ df_columns (DataFrame_of_records [play_A_no_agent; play_B_no_agent]))
  ∧ count_execute time_table_insert tr = 2%nat
  ∧ count_execute user_table_insert tr = 2%nat
  ∧ count_execute songplay_table_insert tr = 0%nat.
Proof.
  apply (process_log_file_missing_songplay_column memory_gateway (utc_host no_agent_tree)
           one_play_path [play_A_no_agent; play_B_no_agent] (connect db_S1) "userAgent").
  - vm_compute. reflexivity.
  - vm_compute. reflexivity.
Defined.

(** The song file found in [data_tree]. *)
Lemma all_files_sound_witness :
  ∃ d name,
    song_path = home_student ++ d ++ [name]
    ∧ is_Some (resolve (root_of data_tree) song_path)
    ∧ json_name name
    ∧ Glob._ishidden name = false.
Proof.
  apply (all_files_sound (utc_host data_tree) ["data"; "song_data"] song_path).
  vm_compute. left.
Defined.

(** The song file of [data_tree], one directory below the root. *)
Lemma all_files_complete_witness :
  song_path ∈ all_files (utc_host data_tree) ["data"; "song_data"].
Proof.
  apply (all_files_complete (utc_host data_tree) ["data"; "song_data"] ["A"]
           "TRAAA.json").
  - compute_done.
  - vm_compute. by eexists.
  - by exists "TRAAA".
  - reflexivity.
Defined.


(** The event file of [data_tree] against a database without constraints. *)
Lemma process_log_file_succeeds_witness :
  ∃ w', process_log_file lenient_gateway (utc_host data_tree) events_path (connect db_S1)
        = (w', Ok tt).
Proof.
  apply (process_log_file_succeeds lenient_gateway (utc_host data_tree)
           (λ q params d _, ex_intro _ _ eq_refl) events_path [play_A; home; play_B]).
  - vm_compute. reflexivity.
  - compute_done.
  - apply Forall_filter_impl.
    repeat (apply Forall_cons; split;
            [intros Hpage;
             first [ by vm_compute in Hpage
                   | eexists; split; [vm_compute; reflexivity|vm_compute; by eexists] ]|]).
    by apply Forall_nil.
Defined.

(** Two song files and a database that refuses to commit: the load ends at
    the first commit, with nothing committed. *)
Lemma process_data_commit_failure_propagates_witness :
  let host := utc_host two_files_tree in
  let w2 := (process_song_file refusing_gateway host a_path (connect empty_db)).1 in
  process_data refusing_gateway host ["data"; "song_data"]
    (func_of refusing_gateway host SongExtractor) (connect empty_db)
  = (log_call Commit w2, Raise PersistenceError)
  ∧ committed w2 = empty_db.
Proof.
  apply (process_data_commit_failure_propagates refusing_gateway (utc_host two_files_tree)
           ["data"; "song_data"] SongExtractor [] a_path [c_path]
           (connect empty_db) (connect empty_db)).
  - vm_compute. reflexivity.
  - reflexivity.
  - vm_compute. reflexivity.
  - reflexivity.
Defined.

(** The song files of [two_files_tree]. *)
Lemma all_files_no_duplicates_witness :
  NoDup (all_files (utc_host two_files_tree) ["data"; "song_data"]).
Proof.
  apply (all_files_no_duplicates (utc_host two_files_tree) ["data"; "song_data"]).
  - vm_compute. reflexivity.
  - compute_done.
Defined.
